(** * Fast-BM25: a shallow embedding of [fast_bm25.py]

    The class [BM25] of the source is a record; its methods are functions
    over that record.  Python exceptions are values of an error monad, the
    two dictionaries are finite maps, and the float arithmetic is taken
    through an interface with two instances: IEEE binary64 (what CPython
    executes) and exact real arithmetic (its idealisation). *)

From Stdlib Require Import ZArith Floats Reals Lra Lia DecimalString DecimalNat.
From stdpp Require Import base option list gmap strings sorting.

#[global] Set Warnings "-clear-no-such-hyp".

(** ** Exceptions and the error monad *)

Inductive exn : Set :=
  | ZeroDivisionError
  | KeyError
  | IndexError
  | AssertionError
  | ValueError
  | FileNotFoundError.

Inductive result (A : Type) : Type :=
  | Ok (a : A)
  | Raise (e : exn).

Arguments Ok {A} a.
Arguments Raise {A} e.

#[global] Instance exn_eq_dec : EqDecision exn.
Proof. solve_decision. Defined.

#[global] Instance result_ret : MRet result := λ A a, Ok a.

#[global] Instance result_bind : MBind result := λ A B f m,
  match m with
  | Ok a => f a
  | Raise e => Raise e
  end.

(** [for x in l: acc = body(acc, x)], stopping at the first exception. *)
Fixpoint for_each {A S : Type} (body : S → A → result S) (acc : S) (l : list A)
  : result S :=
  match l with
  | [] => Ok acc
  | x :: l' => acc' ← body acc x; for_each body acc' l'
  end.

(** [[f(x) for x in l]], stopping at the first exception. *)
Fixpoint comprehension {A B : Type} (f : A → result B) (l : list A)
  : result (list B) :=
  match l with
  | [] => Ok []
  | x :: l' => y ← f x; ys ← comprehension f l'; Ok (y :: ys)
  end.

(** [l[i]] for a non-negative [i]. *)
Definition getitem {A : Type} (l : list A) (i : nat) : result A :=
  match l !! i with
  | Some x => Ok x
  | None => Raise IndexError
  end.

(** [d[k]] on a dictionary. *)
Definition getkey {K : Type} `{Countable K} {V : Type} (d : gmap K V) (k : K)
  : result V :=
  match d !! k with
  | Some v => Ok v
  | None => Raise KeyError
  end.

(** ** Float arithmetic

    The operations of Python's [float] that the source uses.  [fdiv] is the
    quotient for a non-zero divisor; [is_zero] is the test [x == 0.0] that
    decides whether [/] raises.  [of_int] is the implicit conversion of an
    [int] operand, [log] is [math.log] of the platform, whose two arguments
    in the source are counts plus 0.5. *)

Class PyFloat (F : Type) : Type := {
  fadd : F → F → F;
  fsub : F → F → F;
  fmul : F → F → F;
  fdiv : F → F → F;
  is_zero : F → bool;
  fltb : F → F → bool;
  of_int : Z → F;
  half : F;
  log : F → F
}.

(** The order the keys of a ranking must obey: on [comparable] values (every
    float but NaN) [<] is asymmetric and its complement is transitive. *)
Class PyFloatOrder (F : Type) `{PyFloat F} : Type := {
  comparable : F → Prop;
  fltb_asym : ∀ x y, fltb x y = true → fltb y x = false;
  fltb_ge_trans : ∀ x y z,
    comparable y → fltb x y = false → fltb y z = false → fltb x z = false
}.

(** Iteration over a Python [set] of ints: every element once, in an order
    that is an artefact of the hash table. *)
Class PySet : Type := {
  set_iter : list nat → list nat;
  set_iter_NoDup : ∀ l, NoDup (set_iter l);
  set_iter_elem_of : ∀ l i, i ∈ set_iter l ↔ i ∈ l
}.

(** [str(i)] and [int(s)] on the keys [json] writes for a dictionary keyed
    by document positions: unsigned decimal numerals.  ([int] of Python also
    accepts signs, blanks and underscores, which [json.dump] never writes.) *)
Definition str (i : nat) : string := NilZero.string_of_uint (Nat.to_uint i).

Definition int (s : string) : result nat :=
  match NilZero.uint_of_string s with
  | Some d => Ok (Nat.of_uint d)
  | None => Raise ValueError
  end.

(** ** Module constants *)

(** Line 7: the default [alpha]. *)
Definition IDF_CUTOFF : Z := 3.

Section Model.
Context {F : Type} `{PyFloat F}.

Local Notation "x +. y" := (fadd x y) (at level 50, left associativity).
Local Notation "x -. y" := (fsub x y) (at level 50, left associativity).
Local Notation "x *. y" := (fmul x y) (at level 40, left associativity).

(** [x / y] on floats. *)
Definition truediv (x y : F) : result F :=
  if is_zero y then Raise ZeroDivisionError else Ok (fdiv x y).

(** [x / n] for an [int] divisor [n] (the dividend is an int or a float). *)
Definition truediv_int (x : F) (n : Z) : result F :=
  if decide (n = 0%Z) then Raise ZeroDivisionError else Ok (fdiv x (of_int n)).

(** ** The index *)

Record BM25 : Type := {
  k1 : F;
  b : F;
  alpha : F;
  avgdl : F;
  t2d : gmap string (gmap nat nat);
  idf : gmap string F;
  doc_len : list nat;
  (** set by [_initialize] only; absent after [BM25([])] and after [load] *)
  average_idf : option F
}.

Definition corpus_size (self : BM25) : nat := length (doc_len self).

(** Lines 67-71: [self.t2d[word][i] += 1], creating the entries on demand. *)
Definition add_posting (word : string) (i : nat) (t2d : gmap string (gmap nat nat))
  : gmap string (gmap nat nat) :=
  let docs := default ∅ (t2d !! word) in
  <[word := <[i := default 0 (docs !! i) + 1]> docs]> t2d.

(** Lines 66-71: the inner loop over the words of document [i]. *)
Definition index_document (i : nat) (document : list string)
    (t2d : gmap string (gmap nat nat)) : gmap string (gmap nat nat) :=
  foldl (λ t2d word, add_posting word i t2d) t2d document.

(** Lines 63-71: the loop over [enumerate(corpus)]. *)
Definition count_corpus (corpus : list (list string))
    (t2d : gmap string (gmap nat nat)) (doc_len : list nat)
  : gmap string (gmap nat nat) * list nat :=
  foldl (λ '(t2d, doc_len) '(i, document),
           (index_document i document t2d, doc_len ++ [length document]))
        (t2d, doc_len) (imap pair corpus).

(** Line 76. *)
Definition idf_value (corpus_size : nat) (docs : gmap nat nat) : F :=
  log (of_int (Z.of_nat corpus_size - Z.of_nat (size docs)) +. half)
  -. log (of_int (Z.of_nat (size docs)) +. half).

(** Lines 74-81: one pass over [self.t2d.items()], filling [self.idf] and
    [to_delete]. *)
Definition score_terms (corpus_size : nat) (alpha : F)
    (t2d : gmap string (gmap nat nat)) (idf : gmap string F)
  : gmap string F * list string :=
  foldl (λ '(idf, to_delete) '(word, docs),
           let v := idf_value corpus_size docs in
           if fltb alpha v then (<[word := v]> idf, to_delete)
           else (idf, to_delete ++ [word]))
        (idf, []) (map_to_list t2d).

(** Lines 83-84. *)
Definition drop_terms (to_delete : list string) (t2d : gmap string (gmap nat nat))
  : gmap string (gmap nat nat) :=
  foldl (λ t2d word, delete word t2d) t2d to_delete.

(** [sum] of a list of ints. *)
Definition sum_int (l : list nat) : Z := foldl (λ s n, (s + Z.of_nat n)%Z) 0%Z l.

(** [sum(self.idf.values())]; the order of the additions is that of the map,
    and the value is only reported, never used for scoring. *)
Definition sum_values (idf : gmap string F) : F :=
  foldl (λ s kv, s +. kv.2) (of_int 0) (map_to_list idf).

(** Lines 61-94; the two [print]s are not modelled. *)
Definition _initialize (self : BM25) (corpus : list (list string)) : result BM25 :=
  let '(counted, doc_len') := count_corpus corpus (t2d self) (doc_len self) in
  avgdl' ← truediv_int (of_int (sum_int doc_len')) (Z.of_nat (length doc_len'));
  let '(idf', to_delete) :=
    score_terms (length doc_len') (alpha self) counted (idf self) in
  let t2d' := drop_terms to_delete counted in
  average ← truediv_int (sum_values idf') (Z.of_nat (size idf'));
  Ok {| k1 := k1 self; b := b self; alpha := alpha self; avgdl := avgdl';
        t2d := t2d'; idf := idf'; doc_len := doc_len';
        average_idf := Some average |}.

(** Lines 25-55: the constructor [BM25(corpus, k1, b, alpha)]. *)
Definition BM25_init (corpus : list (list string)) (k1 b alpha : F) : result BM25 :=
  let self := {| k1 := k1; b := b; alpha := alpha; avgdl := of_int 0;
                 t2d := ∅; idf := ∅; doc_len := []; average_idf := None |} in
  match corpus with
  | [] => Ok self
  | _ => _initialize self corpus
  end.

(** Lines 111-119. *)
Definition get_score (self : BM25) (query : list string) (index : nat) : result F :=
  let score := of_int 0 in
  let numerator_constant := k1 self +. of_int 1 in
  len ← getitem (doc_len self) index;
  ratio ← truediv (b self *. of_int (Z.of_nat len)) (avgdl self);
  let denominator_constant := k1 self *. (of_int 1 -. b self +. ratio) in
  for_each
    (λ score token,
       match t2d self !! token with
       | Some docs =>
           match docs !! index with
           | Some df =>
               idf ← getkey (idf self) token;
               term ← truediv (idf *. of_int (Z.of_nat df) *. numerator_constant)
                              (of_int (Z.of_nat df) +. denominator_constant);
               Ok (score +. term)
           | None => Ok score
           end
       | None => Ok score
       end)
    score query.

(** [sorted(keyed, reverse=True)] on (key, element) pairs compares keys with
    [<] only and keeps the elements of equal keys in their order. *)
Fixpoint insert_desc {A : Type} (x : F * A) (l : list (F * A)) : list (F * A) :=
  match l with
  | [] => [x]
  | y :: l' => if fltb x.1 y.1 then y :: insert_desc x l' else x :: y :: l'
  end.

Definition sort_desc {A : Type} (l : list (F * A)) : list (F * A) :=
  foldr insert_desc [] l.

(** [heapq.nlargest(n, iterable, key)]: documented as
    [sorted(iterable, key=key, reverse=True)[:n]]; the key is computed once
    per element, and not at all when [n] is 0. *)
Definition nlargest {A : Type} (n : nat) (iterable : list A) (key : A → result F)
  : result (list A) :=
  match n with
  | 0 => Ok []
  | _ =>
      keyed ← comprehension (λ x, k ← key x; Ok (k, x)) iterable;
      Ok ((take n (sort_desc keyed)).*2)
  end.

(** Lines 140-145: the generator that feeds [set(...)]. *)
Definition posting_indexes (self : BM25) (query : list string) : list nat :=
  flat_map (λ token,
              match t2d self !! token with
              | Some docs => (map_to_list docs).*1
              | None => []
              end) query.

(** Lines 140-146 without the final list comprehension: the positions that
    [heapq.nlargest] selects. *)
Definition top_indexes `{PySet} (self : BM25) (query : list string) (n : nat)
  : result (list nat) :=
  let indexes := set_iter (posting_indexes self query) in
  nlargest n indexes (λ idx, get_score self query idx).

(** Lines 139-146. *)
Definition get_top_n `{PySet} {D : Type} (self : BM25) (query : list string)
    (documents : list D) (n : nat) : result (list D) :=
  if decide (corpus_size self = length documents) then
    top ← top_indexes self query n;
    comprehension (λ i, getitem documents i) top
  else Raise AssertionError.

(** ** Persistence *)

(** What [json.load] returns for a file of the documented layout: the table
    of postings comes back keyed by strings. *)
Record json_object : Type := {
  json_k1 : F;
  json_b : F;
  json_alpha : F;
  json_avgdl : F;
  json_t2d : gmap string (gmap string nat);
  json_idf : gmap string F;
  json_doc_len : list nat
}.

(** A dict comprehension [{... for k, v in d.items()}]: a later item
    overwrites an earlier one with the same key. *)
Definition dict_comprehension {K K' : Type} `{Countable K} `{Countable K'}
    {V V' : Type} (item : K → V → result (K' * V')) (d : gmap K V)
  : result (gmap K' V') :=
  for_each (λ acc '(k, v), kv ← item k v; Ok (<[kv.1 := kv.2]> acc))
           ∅ (map_to_list d).

(** [json.dump] writes the int keys of a dictionary as [str(key)]. *)
Definition json_keys (docs : gmap nat nat) : gmap string nat := kmap str docs.

(** Lines 148-154; [fs] is the file system, as far as [save] and [load] see
    it: the JSON document stored under each file name. *)
Definition save (self : BM25) (filename : string) (fs : gmap string json_object)
  : gmap string json_object :=
  let json_object :=
    {| json_k1 := k1 self; json_b := b self; json_alpha := alpha self;
       json_avgdl := avgdl self; json_t2d := json_keys <$> t2d self;
       json_idf := idf self; json_doc_len := doc_len self |} in
  <[filename +:+ ".json" := json_object]> fs.

(** Line 162: [{int(i): f for i, f in ...items()}]. *)
Definition int_keys (docs : gmap string nat) : result (gmap nat nat) :=
  dict_comprehension (λ i f, i' ← int i; Ok (i', f)) docs.

(** Lines 161-162: every table of postings is replaced by one with [int]
    keys. *)
Definition restore_keys (t2d : gmap string (gmap string nat))
  : result (gmap string (gmap nat nat)) :=
  dict_comprehension (λ tok docs, docs' ← int_keys docs; Ok (tok, docs')) t2d.

(** Lines 156-171. *)
Definition load (filename : string) (fs : gmap string json_object) : result BM25 :=
  match fs !! (filename +:+ ".json") with
  | None => Raise FileNotFoundError
  | Some json_object =>
      t2d' ← restore_keys (json_t2d json_object);
      Ok {| k1 := json_k1 json_object; b := json_b json_object;
            alpha := json_alpha json_object; avgdl := json_avgdl json_object;
            t2d := t2d'; idf := json_idf json_object;
            doc_len := json_doc_len json_object; average_idf := None |}
  end.

(** ** The properties, in the words of the specification *)

(** The number of distinct documents that contain [term]. *)
Definition document_frequency (corpus : list (list string)) (term : string) : nat :=
  length (filter (λ document, term ∈ document) corpus).

(** The frequency of [term] in [document]. *)
Definition term_frequency (term : string) (document : list string) : nat :=
  length (filter (λ word, word = term) document).

(** A query term occurrence counts when the term has an IDF entry and a
    posting for [doc_index]; it then carries the pair (idf, tf). *)
Definition retained_occurrence (self : BM25) (doc_index : nat) (term : string)
  : option (F * nat) :=
  weight ← idf self !! term;
  docs ← t2d self !! term;
  tf ← docs !! doc_index;
  Some (weight, tf).

(** [idf * tf * (k1 + 1) / (tf + k1 * (1 - b + b * len / avgdl))]. *)
Definition bm25_term (self : BM25) (len : nat) (occurrence : F * nat) : result F :=
  let '(weight, tf) := occurrence in
  ratio ← truediv (b self *. of_int (Z.of_nat len)) (avgdl self);
  truediv (weight *. of_int (Z.of_nat tf) *. (k1 self +. of_int 1))
          (of_int (Z.of_nat tf) +. k1 self *. (of_int 1 -. b self +. ratio)).

(** The sum of the formula over the retained occurrences, in query order. *)
Definition bm25_sum (self : BM25) (query : list string) (doc_index : nat)
  : result F :=
  len ← getitem (doc_len self) doc_index;
  terms ← comprehension (bm25_term self len)
                        (omap (retained_occurrence self doc_index) query);
  Ok (foldl fadd (of_int 0) terms).

(** The union, over the query's terms, of the document positions that have a
    posting for the term. *)
Definition candidate_set (self : BM25) (query : list string) : gset nat :=
  ⋃ ((λ term, dom (default ∅ (t2d self !! term))) <$> query).

(** The posting of [term] at position [i]: its frequency in document [i],
    when it occurs there. *)
Definition posting_of (corpus : list (list string)) (term : string) (i : nat) : option nat :=
  document ← corpus !! i;
  if decide (term ∈ document) then Some (term_frequency term document) else None.

(** [ln(corpus_size - df + 0.5) - ln(df + 0.5)]. *)
Definition idf_weight (corpus_size df : nat) : F :=
  fsub (log (fadd (of_int (Z.of_nat corpus_size - Z.of_nat df)) half))
       (log (fadd (of_int (Z.of_nat df)) half)).

(** What construction establishes and every later operation relies on: the
    two tables have the same terms, and every posting is a positive count at
    a position of the corpus. *)
Definition index_invariant (self : BM25) : Prop :=
  dom (idf self) = dom (t2d self) ∧
  ∀ w docs i c, t2d self !! w = Some docs → docs !! i = Some c →
    i < corpus_size self ∧ 0 < c.

(** [x] is not lower than [y]. *)
Definition desc {A : Type} (x y : F * A) : Prop := fltb x.1 y.1 = false.

(** The score of position [i] is not lower than the score of position [j]. *)
Definition not_lower (self : BM25) (query : list string) (i j : nat) : Prop :=
  ∀ si sj, get_score self query i = Ok si → get_score self query j = Ok sj →
    fltb si sj = false.

End Model.

Arguments BM25 F : clear implicits.
Arguments json_object F : clear implicits.

(** ** The two arithmetics *)

(** *** IEEE binary64 *)

(** The conversion of an [int] to a [float], correctly rounded (exact below
    2^53; lengths and counts stay far below 2^63). *)
Definition float_of_int (z : Z) : float :=
  match z with
  | Z0 => 0%float
  | Zpos _ => PrimFloat.of_uint63 (Uint63.of_Z z)
  | Zneg p => (- PrimFloat.of_uint63 (Uint63.of_Z (Zpos p)))%float
  end.

(** A natural logarithm on binary64, standing for the [log] of the C library
    behind [math.log] (which differs from it by at most a few units in the
    last place): [x = m * 2^e] with [m] near 1, and
    [ln m = 2 atanh ((m - 1) / (m + 1))] by its series. *)
Definition libm_log (x : float) : float :=
  (if PrimFloat.ltb 0 x then
     if PrimFloat.eqb x infinity then infinity
     else
       let '(m, e) := Z.frexp x in
       let '(m, e) :=
         if PrimFloat.ltb m 0x1.6a09e667f3bcdp-1 then (2 * m, (e - 1)%Z) else (m, e) in
       let s := (m - 1) / (m + 1) in
       let s2 := s * s in
       let series :=
         1 + s2 * (1/3 + s2 * (1/5 + s2 * (1/7 + s2 * (1/9 + s2 * (1/11
           + s2 * (1/13 + s2 * (1/15 + s2 * (1/17 + s2 * (1/19 + s2 * (1/21)))))))))) in
       float_of_int e * 0x1.62e42fefa39efp-1 + 2 * s * series
   else nan)%float.

#[global] Instance binary64 : PyFloat float := {|
  fadd := PrimFloat.add;
  fsub := PrimFloat.sub;
  fmul := PrimFloat.mul;
  fdiv := PrimFloat.div;
  is_zero := λ x, PrimFloat.eqb x 0%float;
  fltb := PrimFloat.ltb;
  of_int := float_of_int;
  half := 0.5%float;
  log := libm_log
|}.

(** Every binary64 value but NaN. *)
Definition not_nan (x : float) : Prop := PrimFloat.is_nan x = false.

(** *** Exact real arithmetic *)

#[global] Instance R_eq_dec : EqDecision R := Req_dec_T.

#[global] Instance Rlt_decision (x y : R) : Decision (x < y)%R := Rlt_dec x y.

#[global] Instance exact_real : PyFloat R := {|
  fadd := Rplus;
  fsub := Rminus;
  fmul := Rmult;
  fdiv := Rdiv;
  is_zero := λ x, bool_decide (x = 0%R);
  fltb := λ x y, bool_decide (x < y)%R;
  of_int := IZR;
  half := (/ 2)%R;
  log := ln
|}.

(** One summand of line 118 in exact arithmetic, for an occurrence (idf, tf)
    in a document of length [len]. *)
Definition exact_summand (self : BM25 R) (len : nat) (occurrence : R * nat) : R :=
  (occurrence.1 * IZR (Z.of_nat occurrence.2) * (k1 self + 1)
   / (IZR (Z.of_nat occurrence.2)
      + k1 self * (1 - b self + b self * IZR (Z.of_nat len) / avgdl self)))%R.

(** *** A set that iterates over the distinct elements of its source *)

#[global] Instance list_backed_set : PySet := {|
  set_iter := remove_dups;
  set_iter_NoDup := NoDup_remove_dups;
  set_iter_elem_of := elem_of_remove_dups
|}.

(** ** Examples *)

(** The corpus of the specification's example. *)
Definition example_corpus : list (list string) :=
  [["the"; "cat"; "sat"]; ["the"; "dog"; "ran"]; ["cat"; "cat"; "ran"]].

(** The index that a successful construction returns. *)
Definition built (r : result (BM25 float)) : BM25 float :=
  match r with
  | Ok self => self
  | Raise _ =>
      {| k1 := 0%float; b := 0%float; alpha := 0%float; avgdl := 0%float;
         t2d := ∅; idf := ∅; doc_len := []; average_idf := None |}
  end.

(** [BM25(example_corpus, k1=1.5, b=0.75, alpha=-10)]. *)
Definition example_index : BM25 float :=
  built (BM25_init example_corpus 1.5%float 0.75%float (-10)%float).

(** On the index of [corpus], [get_score(query, d)] at the in-range position
    [d] raises [ZeroDivisionError]. *)
Definition score_divides_by_zero (corpus : list (list string)) (k b0 a : float)
    (query : list string) (d : nat) : Prop :=
  ∃ self : BM25 float,
    BM25_init corpus k b0 a = Ok self ∧
    d < corpus_size self ∧
    get_score self query d = Raise ZeroDivisionError.

(** [get_score(query, d)] is lower on the index of [corpus'] than on the
    index of [corpus]. *)
Definition score_drops (corpus corpus' : list (list string)) (k b0 a : float)
    (query : list string) (d : nat) : Prop :=
  ∃ (self self' : BM25 float) (s s' : float),
    BM25_init corpus k b0 a = Ok self ∧
    BM25_init corpus' k b0 a = Ok self' ∧
    get_score self query d = Ok s ∧
    get_score self' query d = Ok s' ∧
    PrimFloat.ltb s' s = true.

(** A corpus with a repeated document. *)
Definition twin_corpus : list (list string) :=
  [["a"; "b"]; ["b"; "a"]; ["c"]; ["d"]; ["e"]].

(** Fifty documents, one of them with a word. *)
Definition sparse_corpus : list (list string) := ["a"] :: replicate 49 [].

(** * Proofs *)

(** ** The error monad and the loops *)

Lemma bind_Ok {A B : Type} (f : A → result B) (m : result A) (y : B) :
  m ≫= f = Ok y ↔ ∃ x, m = Ok x ∧ f x = Ok y.
Proof. destruct m as [x|e]; simpl; [|split; [done|by intros (?&?&?)]]. naive_solver. Qed.

Lemma getitem_Ok {A : Type} (l : list A) (i : nat) (x : A) :
  getitem l i = Ok x ↔ l !! i = Some x.
Proof. unfold getitem. destruct (l !! i); naive_solver. Qed.

Lemma getitem_lt {A : Type} (l : list A) (i : nat) :
  i < length l → ∃ x, getitem l i = Ok x ∧ l !! i = Some x.
Proof.
  intros [x Hx]%lookup_lt_is_Some_2. exists x. by rewrite getitem_Ok.
Qed.

Lemma getkey_Some {K : Type} `{Countable K} {V : Type} (d : gmap K V) (k : K) (v : V) :
  d !! k = Some v → getkey d k = Ok v.
Proof. unfold getkey. by intros ->. Qed.

Lemma comprehension_Ok {A B : Type} (f : A → result B) (l : list A) (ys : list B) :
  comprehension f l = Ok ys ↔ Forall2 (λ x y, f x = Ok y) l ys.
Proof.
  revert ys. induction l as [|x l IH]; intros ys; simpl.
  - split; [intros [= <-]; constructor | by intros ->%Forall2_nil_inv_l].
  - rewrite bind_Ok. split.
    + intros (y & Hy & Hrest). apply bind_Ok in Hrest as (ys' & Hys' & [= <-]).
      constructor; [done | by apply IH].
    + intros (y & ys' & Hy & Hys' & ->)%Forall2_cons_inv_l.
      exists y. split; [done|]. apply IH in Hys'. by rewrite Hys'.
Qed.

Lemma comprehension_total {A B : Type} (f : A → result B) (l : list A) :
  (∀ x, x ∈ l → ∃ y, f x = Ok y) → ∃ ys, comprehension f l = Ok ys.
Proof.
  induction l as [|x l IH]; intros Hf; simpl; [by eexists|].
  destruct (Hf x) as [y ->]; [left|]. simpl.
  destruct IH as [ys ->]; [intros; apply Hf; by right|]. by eexists.
Qed.

Lemma comprehension_Raise {A B : Type} (f : A → result B) (l : list A) (e : exn) :
  comprehension f l = Raise e → ∃ x, x ∈ l ∧ f x = Raise e.
Proof.
  induction l as [|x l IH]; [done|]. cbn [comprehension].
  destruct (f x) as [y|e'] eqn:Hx; cbn [mbind result_bind].
  - destruct (comprehension f l) as [ys|e']; [done|]. cbn [mbind result_bind].
    intros [= ->]. destruct IH as (x' & ? & ?); [done|]. exists x'. split; [by right|done].
  - intros [= ->]. exists x. split; [by left|done].
Qed.

Lemma comprehension_getitem {D : Type} (documents : list D) (sel : list nat) :
  (∀ i, i ∈ sel → i < length documents) →
  ∃ result, comprehension (λ i, getitem documents i) sel = Ok result ∧
            Forall2 (λ i d, documents !! i = Some d) sel result.
Proof.
  intros Hsel.
  destruct (comprehension_total (λ i, getitem documents i) sel) as [result Hr].
  { intros i Hi. destruct (getitem_lt documents i) as (d & ? & _); eauto. }
  exists result. split; [done|]. apply comprehension_Ok in Hr.
  eapply Forall2_impl; [exact Hr|]. intros i d. by rewrite getitem_Ok.
Qed.

Lemma for_each_cons {A S : Type} (body : S → A → result S) (acc : S) (x : A)
    (l : list A) :
  for_each body acc (x :: l) = body acc x ≫= λ acc', for_each body acc' l.
Proof. done. Qed.


Lemma for_each_Raise {A S : Type} (body : S → A → result S) (acc : S) (l : list A)
    (e : exn) :
  for_each body acc l = Raise e → ∃ s x, x ∈ l ∧ body s x = Raise e.
Proof.
  revert acc. induction l as [|x l IH]; intros acc; [done|]. rewrite for_each_cons.
  destruct (body acc x) as [acc'|e'] eqn:Hx; cbn [mbind result_bind].
  - intros (s & x' & ? & ?)%IH. exists s, x'. split; [by right|done].
  - intros [= ->]. exists acc, x. split; [by left|done].
Qed.


(** ** Frequencies, read off the corpus *)

Section Corpus.
Implicit Types (w u t : string) (i d : nat) (corpus : list (list string)).

Lemma term_frequency_pos w (document : list string) :
  w ∈ document ↔ 0 < term_frequency w document.
Proof.
  unfold term_frequency. induction document as [|x document IH]; simpl.
  - split; [by intros ?%elem_of_nil | lia].
  - rewrite elem_of_cons, filter_cons. case_decide; simpl; [naive_solver lia|].
    rewrite <-IH. naive_solver.
Qed.

Lemma term_frequency_cons w x (document : list string) :
  term_frequency w (x :: document) =
    (if decide (x = w) then 1 else 0) + term_frequency w document.
Proof. unfold term_frequency. rewrite filter_cons. by case_decide. Qed.



Lemma term_frequency_Permutation (u : string) (l1 l2 : list string) :
  l1 ≡ₚ l2 → term_frequency u l1 = term_frequency u l2.
Proof. unfold term_frequency. by intros ->. Qed.

Lemma term_frequency_le (u : string) (l : list string) : term_frequency u l ≤ length l.
Proof. unfold term_frequency. apply length_filter. Qed.

Lemma document_frequency_snoc (corpus : list (list string)) (document : list string) w :
  document_frequency (corpus ++ [document]) w =
    document_frequency corpus w + (if decide (w ∈ document) then 1 else 0).
Proof.
  unfold document_frequency. rewrite filter_app, length_app, filter_cons, filter_nil.
  by case_decide.
Qed.



Lemma posting_of_snoc (corpus : list (list string)) (document : list string) w i :
  posting_of (corpus ++ [document]) w i =
    if decide (i = length corpus)
    then (if decide (w ∈ document) then Some (term_frequency w document) else None)
    else posting_of corpus w i.
Proof.
  unfold posting_of. case_decide as Hi.
  - subst. by rewrite list_lookup_middle.
  - destruct (decide (i < length corpus)).
    + by rewrite lookup_app_l.
    + rewrite !lookup_ge_None_2; [done| lia |rewrite length_app; simpl; lia].
Qed.

Lemma posting_of_ge (corpus : list (list string)) w i :
  length corpus ≤ i → posting_of corpus w i = None.
Proof. intros. unfold posting_of. by rewrite lookup_ge_None_2. Qed.

Lemma posting_of_Some corpus w i c :
  posting_of corpus w i = Some c → i < length corpus ∧ 0 < c.
Proof.
  unfold posting_of. destruct (corpus !! i) as [document|] eqn:Hi; [|done]. cbn.
  case_decide as Hin; [|done]. intros [= <-].
  split; [by eapply lookup_lt_Some | by apply term_frequency_pos].
Qed.







End Corpus.

(** ** Counting and pruning (lines 63-84) *)

Section Counting.
Context {F : Type} `{PyFloat F}.
Implicit Types (t : gmap string (gmap nat nat)) (w word : string) (i : nat).
Implicit Types (corpus : list (list string)) (self : BM25 F).

Lemma add_posting_lookup word i t w :
  add_posting word i t !! w =
    if decide (w = word)
    then Some (<[i := default 0 (default ∅ (t !! w) !! i) + 1]> (default ∅ (t !! w)))
    else t !! w.
Proof.
  unfold add_posting. case_decide as Hw.
  - subst. by rewrite lookup_insert_eq.
  - by rewrite lookup_insert_ne.
Qed.

Lemma index_document_lookup i (document : list string) t w :
  index_document i document t !! w =
    if decide (w ∈ document)
    then Some (<[i := default 0 (default ∅ (t !! w) !! i) + term_frequency w document]>
                 (default ∅ (t !! w)))
    else t !! w.
Proof.
  unfold index_document.
  revert t. induction document as [|x document IH]; intros t.
  - by rewrite decide_False by apply not_elem_of_nil.
  - cbn [foldl]. rewrite IH, add_posting_lookup, term_frequency_cons.
    destruct (decide (w = x)) as [->|Hne].
    + rewrite (decide_True (P := x ∈ x :: document)) by left.
      rewrite (decide_True (P := x = x)) by done. cbn [default from_option Datatypes.id].
      rewrite lookup_insert_eq. cbn [default from_option Datatypes.id].
      case_decide as Hin.
      * rewrite insert_insert_eq. do 2 f_equal. lia.
      * rewrite term_frequency_pos in Hin. do 2 f_equal. lia.
    + rewrite (decide_False (P := x = w)) by done.
      case_decide as Hin.
      * by rewrite decide_True by by right.
      * rewrite decide_False; [done|]. by intros [?|?]%elem_of_cons.
Qed.

Lemma count_corpus_snoc (corpus : list (list string)) (document : list string)
    t (lens : list nat) :
  count_corpus (corpus ++ [document]) t lens =
    let '(t', lens') := count_corpus corpus t lens in
    (index_document (length corpus) document t', lens' ++ [length document]).
Proof.
  unfold count_corpus. rewrite imap_app, foldl_app. cbn [imap foldl].
  destruct (foldl _ _ _). by rewrite Nat.add_0_r.
Qed.

Lemma count_corpus_doc_len (corpus : list (list string)) t (lens : list nat) :
  (count_corpus corpus t lens).2 = lens ++ (length <$> corpus).
Proof.
  induction corpus as [|document corpus IH] using rev_ind.
  - by rewrite app_nil_r.
  - rewrite count_corpus_snoc. destruct (count_corpus corpus t lens) as [t' lens'].
    simpl in *. by rewrite IH, fmap_app, app_assoc.
Qed.

Lemma count_corpus_spec (corpus : list (list string)) w :
  let docs := default ∅ ((count_corpus corpus ∅ []).1 !! w) in
  size docs = document_frequency corpus w ∧
  (∀ i, docs !! i = posting_of corpus w i) ∧
  (is_Some ((count_corpus corpus ∅ []).1 !! w) ↔ 0 < document_frequency corpus w).
Proof.
  induction corpus as [|document corpus IH] using rev_ind.
  - cbn. split_and!; [done|done|]. split; [by intros [? ?]|lia].
  - rewrite count_corpus_snoc, document_frequency_snoc.
    destruct (count_corpus corpus ∅ []) as [t lens]. cbn [fst] in *.
    destruct IH as (Hsize & Hlook & Hsome).
    rewrite index_document_lookup. case_decide as Hin; cbn [default from_option Datatypes.id].
    + assert (default ∅ (t !! w) !! length corpus = None) as Hfresh
        by (rewrite Hlook; by apply posting_of_ge).
      rewrite Hfresh. split_and!.
      * rewrite map_size_insert_None by done. lia.
      * intros i. rewrite posting_of_snoc, lookup_insert.
        rewrite (decide_True (P := w ∈ document)) by done.
        destruct (decide (length corpus = i)) as [<-|]; [by rewrite decide_True|].
        rewrite decide_False by done. apply Hlook.
      * split; [lia|eauto].
    + split_and!; [lia| |by rewrite Nat.add_0_r].
      intros i. rewrite posting_of_snoc, (decide_False (P := w ∈ document)) by done.
      case_decide; [|done]. subst. rewrite Hlook. by apply posting_of_ge.
Qed.

Lemma score_terms_fold (n : nat) (a : F) (l : list (string * gmap nat nat))
    (idf0 : gmap string F) (del0 : list string) :
  NoDup l.*1 →
  let r := foldl (λ '(idf, to_delete) '(word, docs),
                    let v := idf_value n docs in
                    if fltb a v then (<[word := v]> idf, to_delete)
                    else (idf, to_delete ++ [word])) (idf0, del0) l in
  (∀ w, w ∉ l.*1 → r.1 !! w = idf0 !! w) ∧
  (∀ w docs, (w, docs) ∈ l →
     r.1 !! w = if fltb a (idf_value n docs) then Some (idf_value n docs) else idf0 !! w) ∧
  (∀ w, w ∈ r.2 ↔
     w ∈ del0 ∨ ∃ docs, (w, docs) ∈ l ∧ fltb a (idf_value n docs) = false).
Proof.
  cbv zeta. revert idf0 del0. induction l as [|[x docs] l IH]; intros idf0 del0 Hnd.
  - cbn. split_and!; [done|by intros ?? ?%elem_of_nil|].
    intros w. split; [auto|]. by intros [?|(? & ?%elem_of_nil & _)].
  - apply NoDup_cons in Hnd as [Hx Hnd]. cbn [foldl fmap list_fmap fst] in *.
    destruct (fltb a (idf_value n docs)) eqn:Hlt.
    + destruct (IH (<[x := idf_value n docs]> idf0) del0 Hnd) as (Hout & Hin & Hdel).
      split_and!.
      * intros w [Hne Hw]%not_elem_of_cons. by rewrite Hout, lookup_insert_ne.
      * intros w docs' [[= -> ->]|Hw]%elem_of_cons.
        -- by rewrite Hout, lookup_insert_eq, Hlt.
        -- rewrite (Hin _ _ Hw). destruct (fltb a (idf_value n docs')); [done|].
           rewrite lookup_insert_ne; [done|]. intros ->. apply Hx.
           apply list_elem_of_fmap. by exists (w, docs').
      * intros w. rewrite Hdel. split; intros [?|(docs' & Hw & Hf)]; auto.
        -- right. exists docs'. split; [by right|done].
        -- apply elem_of_cons in Hw as [[= -> ->]|Hw]; [congruence|]. right. eauto.
    + destruct (IH idf0 (del0 ++ [x]) Hnd) as (Hout & Hin & Hdel).
      split_and!.
      * intros w [Hne Hw]%not_elem_of_cons. by rewrite Hout.
      * intros w docs' [[= -> ->]|Hw]%elem_of_cons.
        -- by rewrite Hout, Hlt.
        -- by rewrite (Hin _ _ Hw).
      * intros w. rewrite Hdel, elem_of_app, list_elem_of_singleton.
        split.
        -- intros [[?| ->]|(docs' & Hw & Hf)]; auto.
           ++ right. exists docs. split; [by left|done].
           ++ right. exists docs'. split; [by right|done].
        -- intros [?|(docs' & Hw & Hf)]; auto.
           apply elem_of_cons in Hw as [[= -> ->]|Hw]; [auto|]. right. eauto.
Qed.

Lemma score_terms_spec (n : nat) (a : F) t :
  let r := score_terms n a t ∅ in
  (∀ w, r.1 !! w =
          docs ← t !! w;
          if fltb a (idf_value n docs) then Some (idf_value n docs) else None) ∧
  (∀ w, w ∈ r.2 ↔ ∃ docs, t !! w = Some docs ∧ fltb a (idf_value n docs) = false).
Proof.
  unfold score_terms. cbv zeta.
  pose proof (score_terms_fold n a (map_to_list t) ∅ [] (NoDup_fst_map_to_list t))
    as Hfold.
  cbv zeta in Hfold. destruct Hfold as (Hout & Hin & Hdel).
  split.
  - intros w. destruct (t !! w) as [docs|] eqn:Hw; cbn.
    + apply elem_of_map_to_list in Hw. rewrite (Hin _ _ Hw).
      by destruct (fltb a (idf_value n docs)).
    + rewrite Hout; [done|]. intros ((w' & docs) & -> & Hw')%list_elem_of_fmap.
      apply elem_of_map_to_list in Hw'. cbn in Hw. congruence.
  - intros w. rewrite Hdel. split.
    + intros [?%elem_of_nil|(docs & Hw%elem_of_map_to_list & Hf)]; [done|eauto].
    + intros (docs & Hw%elem_of_map_to_list & Hf). eauto.
Qed.

Lemma drop_terms_lookup (to_delete : list string) t w :
  drop_terms to_delete t !! w = if decide (w ∈ to_delete) then None else t !! w.
Proof.
  unfold drop_terms. revert t.
  induction to_delete as [|x to_delete IH]; intros t; cbn [foldl].
  - by rewrite decide_False by apply not_elem_of_nil.
  - rewrite IH. destruct (decide (w = x)) as [->|Hne].
    + rewrite lookup_delete_eq, (decide_True (P := x ∈ x :: to_delete)) by left.
      by case_decide.
    + rewrite lookup_delete_ne by done. case_decide.
      * by rewrite decide_True by by right.
      * rewrite decide_False; [done|]. by intros [?|?]%elem_of_cons.
Qed.

(** Lines 74-84 together: the two tables after pruning. *)
Lemma prune_spec (n : nat) (a : F) t w :
  let r := score_terms n a t ∅ in
  r.1 !! w = (docs ← t !! w;
              if fltb a (idf_value n docs) then Some (idf_value n docs) else None) ∧
  drop_terms r.2 t !! w = (docs ← t !! w;
                           if fltb a (idf_value n docs) then Some docs else None).
Proof.
  pose proof (score_terms_spec n a t) as Hspec. cbv zeta in *.
  destruct Hspec as [Hidf Hdel]. split; [apply Hidf|].
  rewrite drop_terms_lookup. case_decide as Hw.
  - apply Hdel in Hw as (docs & -> & Hf). cbn. by rewrite Hf.
  - destruct (t !! w) as [docs|] eqn:Ht; cbn; [|done].
    destruct (fltb a (idf_value n docs)) eqn:Hf; [done|].
    destruct Hw. apply Hdel. eauto.
Qed.

End Counting.

(** ** The constructed index *)

Section Construction.
Context {F : Type} `{PyFloat F}.
Implicit Types (t : gmap string (gmap nat nat)) (w word : string) (i : nat).
Implicit Types (corpus : list (list string)) (self : BM25 F).

Lemma BM25_init_unfold corpus (k b0 a : F) :
  corpus ≠ [] →
  BM25_init corpus k b0 a =
    if decide (size (score_terms (length corpus) a (count_corpus corpus ∅ []).1 ∅).1 = 0)
    then Raise ZeroDivisionError
    else Ok {| k1 := k; b := b0; alpha := a;
               avgdl := fdiv (of_int (sum_int (length <$> corpus)))
                             (of_int (Z.of_nat (length corpus)));
               t2d := drop_terms (score_terms (length corpus) a
                                    (count_corpus corpus ∅ []).1 ∅).2
                                 (count_corpus corpus ∅ []).1;
               idf := (score_terms (length corpus) a (count_corpus corpus ∅ []).1 ∅).1;
               doc_len := length <$> corpus;
               average_idf :=
                 Some (fdiv (sum_values (score_terms (length corpus) a
                                           (count_corpus corpus ∅ []).1 ∅).1)
                            (of_int (Z.of_nat (size (score_terms (length corpus) a
                                           (count_corpus corpus ∅ []).1 ∅).1)))) |}.
Proof.
  intros Hne. unfold BM25_init, _initialize.
  destruct corpus as [|d corpus]; [done|]. cbn [t2d doc_len idf alpha k1 b].
  pose proof (count_corpus_doc_len (d :: corpus) ∅ []) as Hlen.
  destruct (count_corpus (d :: corpus) ∅ []) as [counted lens].
  cbn [fst snd] in *. rewrite app_nil_l in Hlen. subst lens.
  rewrite length_fmap. unfold truediv_int.
  rewrite (decide_False (P := Z.of_nat (length (d :: corpus)) = 0%Z))
    by (cbn [length]; lia).
  cbn [mbind result_bind].
  destruct (score_terms (length (d :: corpus)) a counted ∅) as [idf' del].
  cbn [fst snd].
  destruct (decide (size idf' = 0)) as [Hz|Hz].
  - by rewrite decide_True by lia.
  - by rewrite decide_False by lia.
Qed.

Lemma BM25_init_nil (k b0 a : F) self :
  BM25_init [] k b0 a = Ok self →
  self = {| k1 := k; b := b0; alpha := a; avgdl := of_int 0; t2d := ∅; idf := ∅;
            doc_len := []; average_idf := None |}.
Proof. by intros [= <-]. Qed.

Lemma BM25_init_params corpus (k b0 a : F) self :
  BM25_init corpus k b0 a = Ok self →
  k1 self = k ∧ b self = b0 ∧ alpha self = a ∧ doc_len self = length <$> corpus.
Proof.
  destruct (decide (corpus = [])) as [->|Hne]; [by intros ->%BM25_init_nil|].
  rewrite BM25_init_unfold by done. case_decide; [done|]. by intros [= <-].
Qed.

Lemma BM25_init_corpus_size corpus (k b0 a : F) self :
  BM25_init corpus k b0 a = Ok self → corpus_size self = length corpus.
Proof.
  intros (_ & _ & _ & Hlen)%BM25_init_params.
  unfold corpus_size. by rewrite Hlen, length_fmap.
Qed.

Lemma BM25_init_avgdl corpus (k b0 a : F) self :
  corpus ≠ [] → BM25_init corpus k b0 a = Ok self →
  avgdl self = fdiv (of_int (sum_int (length <$> corpus)))
                    (of_int (Z.of_nat (length corpus))).
Proof.
  intros Hne. rewrite BM25_init_unfold by done. case_decide; [done|]. by intros [= <-].
Qed.

(** The two tables of a constructed index, term by term. *)
Lemma BM25_init_term corpus (k b0 a : F) self w :
  BM25_init corpus k b0 a = Ok self →
  let df := document_frequency corpus w in
  let v := idf_weight (length corpus) df in
  (0 < df ∧ fltb a v = true ∧ idf self !! w = Some v ∧
     ∃ docs, t2d self !! w = Some docs ∧ size docs = df ∧
             ∀ i, docs !! i = posting_of corpus w i) ∨
  ((df = 0 ∨ fltb a v = false) ∧ idf self !! w = None ∧ t2d self !! w = None).
Proof.
  cbv zeta. destruct (decide (corpus = [])) as [->|Hne].
  { intros ->%BM25_init_nil. right. cbn. rewrite !lookup_empty. auto. }
  rewrite BM25_init_unfold by done. case_decide as Hsize; [done|]. intros [= <-].
  cbn [idf t2d].
  pose proof (prune_spec (length corpus) a (count_corpus corpus ∅ []).1 w) as Hp.
  cbv zeta in Hp. destruct Hp as [-> ->].
  pose proof (count_corpus_spec corpus w) as Hc. cbv zeta in Hc.
  destruct Hc as (Hsz & Hlook & Hsome).
  destruct ((count_corpus corpus ∅ []).1 !! w) as [docs|] eqn:Hw;
    cbn [default from_option Datatypes.id mbind option_bind] in *.
  - unfold idf_value. fold (idf_weight (length corpus) (size docs)). rewrite Hsz.
    destruct (fltb a _) eqn:Hf.
    + left. split_and!; [by apply Hsome|done|done|]. eauto.
    + right. auto.
  - right. split_and!; [|done|done]. left.
    destruct (document_frequency corpus w); [done|]. destruct Hsome as [_ Hs].
    destruct Hs as [? [=]]. lia.
Qed.


Lemma BM25_init_invariant corpus (k b0 a : F) self :
  BM25_init corpus k b0 a = Ok self → index_invariant self.
Proof.
  intros Hinit. split.
  - apply set_eq. intros w. rewrite !elem_of_dom.
    pose proof (BM25_init_term _ _ _ _ _ w Hinit) as Ht. cbv zeta in Ht.
    destruct Ht as [(_ & _ & -> & docs & -> & _)|(_ & -> & ->)]; [|done].
    split; eauto.
  - intros w docs i c Hw Hi.
    pose proof (BM25_init_term _ _ _ _ _ w Hinit) as Ht. cbv zeta in Ht.
    destruct Ht as [(_ & _ & _ & docs' & Hw' & _ & Hlook)|(_ & _ & Hw')];
      [|congruence].
    assert (docs' = docs) as -> by congruence.
    rewrite Hlook in Hi. apply posting_of_Some in Hi.
    by rewrite (BM25_init_corpus_size _ _ _ _ _ Hinit).
Qed.

(** Construction succeeds as soon as one term is retained ... *)
Lemma BM25_init_retained corpus (k b0 a : F) (term : string) :
  0 < document_frequency corpus term →
  fltb a (idf_weight (length corpus) (document_frequency corpus term)) = true →
  ∃ self, BM25_init corpus k b0 a = Ok self.
Proof.
  intros Hdf Hlt.
  assert (corpus ≠ []) as Hne by (intros ->; cbn in Hdf; lia).
  rewrite BM25_init_unfold by done. case_decide as Hsize; [|by eexists].
  apply map_size_empty_iff in Hsize.
  pose proof (prune_spec (length corpus) a (count_corpus corpus ∅ []).1 term) as Hp.
  cbv zeta in Hp. destruct Hp as [Hidf _]. rewrite Hsize, lookup_empty in Hidf.
  pose proof (count_corpus_spec corpus term) as Hc. cbv zeta in Hc.
  destruct Hc as (Hsz & _ & Hsome).
  destruct ((count_corpus corpus ∅ []).1 !! term) as [docs|] eqn:Hw.
  - cbn in Hidf, Hsz. unfold idf_value in Hidf.
    fold (idf_weight (length corpus) (size docs)) in Hidf.
    rewrite Hsz, Hlt in Hidf. done.
  - apply Hsome in Hdf as [? [=]].
Qed.

(** ... and raises [ZeroDivisionError] at line 86 when none is. *)
Lemma BM25_init_all_pruned corpus (k b0 a : F) :
  corpus ≠ [] →
  (∀ term, 0 < document_frequency corpus term →
     fltb a (idf_weight (length corpus) (document_frequency corpus term)) = false) →
  BM25_init corpus k b0 a = Raise ZeroDivisionError.
Proof.
  intros Hne Hall. rewrite BM25_init_unfold by done.
  rewrite decide_True; [done|]. apply map_size_empty_iff, map_eq. intros term.
  rewrite lookup_empty.
  pose proof (prune_spec (length corpus) a (count_corpus corpus ∅ []).1 term) as Hp.
  cbv zeta in Hp. destruct Hp as [-> _].
  pose proof (count_corpus_spec corpus term) as Hc. cbv zeta in Hc.
  destruct Hc as (Hsz & _ & Hsome).
  destruct ((count_corpus corpus ∅ []).1 !! term) as [docs|] eqn:Hw; [|done].
  cbn in *. unfold idf_value. fold (idf_weight (length corpus) (size docs)).
  rewrite Hsz, Hall; [done|]. apply Hsome. eauto.
Qed.

(** A constructed index over a non-empty corpus has a retained term. *)
Lemma BM25_init_some_term (corpus : list (list string)) (k b0 a : F) (self : BM25 F) :
  corpus ≠ [] → BM25_init corpus k b0 a = Ok self →
  ∃ term, 0 < document_frequency corpus term ∧ is_Some (idf self !! term).
Proof.
  intros Hne Hinit. pose proof Hinit as Hinit'.
  rewrite BM25_init_unfold in Hinit' by done. case_decide as Hsize; [done|].
  injection Hinit' as Hself.
  destruct (map_choose (idf self)) as (term & v & Hv).
  { intros Hempty. apply Hsize. rewrite <-Hself in Hempty. cbn in Hempty.
    by rewrite Hempty, map_size_empty. }
  exists term. split; [|eauto].
  pose proof (BM25_init_term _ _ _ _ _ term Hinit) as Ht. cbv zeta in Ht.
  destruct Ht as [(? & _)|(_ & ? & _)]; [done|congruence].
Qed.


(** C5. The weight stored for a term of the corpus is
    [ln(corpus_size - df + 0.5) - ln(df + 0.5)] for its document frequency
    [df]; the term keeps its IDF entry and its postings when that weight is
    greater than [alpha], and loses both otherwise. *)
Theorem idf_weight_and_retention corpus (k b0 a : F) self (term : string) :
  corpus ≠ [] →
  BM25_init corpus k b0 a = Ok self →
  0 < document_frequency corpus term →
  let df := document_frequency corpus term in
  let weight :=
    fsub (log (fadd (of_int (Z.of_nat (corpus_size self) - Z.of_nat df)) half))
         (log (fadd (of_int (Z.of_nat df)) half)) in
  if fltb a weight
  then idf self !! term = Some weight ∧
       ∃ docs, t2d self !! term = Some docs ∧ size docs = df ∧
               ∀ i, docs !! i = posting_of corpus term i
  else idf self !! term = None ∧ t2d self !! term = None.
Proof.
  intros _ Hinit Hdf. cbv zeta.
  rewrite (BM25_init_corpus_size _ _ _ _ _ Hinit).
  pose proof (BM25_init_term _ _ _ _ _ term Hinit) as Ht. cbv zeta in Ht.
  unfold idf_weight in Ht.
  destruct Ht as [(_ & -> & Hidf & Hdocs)|([Hz| ->] & Hidf & Ht2d)]; [done|lia|done].
Qed.

End Construction.

(** ** Scoring *)

Section Scoring.
Context {F : Type} `{PyFloat F}.
Implicit Types (t : gmap string (gmap nat nat)) (w word : string) (i : nat).
Implicit Types (corpus : list (list string)) (self : BM25 F).


Lemma bm25_term_ratio self (len tf : nat) (weight ratio : F) :
  truediv (fmul (b self) (of_int (Z.of_nat len))) (avgdl self) = Ok ratio →
  bm25_term self len (weight, tf) =
    truediv (fmul (fmul weight (of_int (Z.of_nat tf))) (fadd (k1 self) (of_int 1)))
            (fadd (of_int (Z.of_nat tf))
                  (fmul (k1 self) (fadd (fsub (of_int 1) (b self)) ratio))).
Proof. unfold bm25_term. by intros ->. Qed.

(** The loop of lines 114-118 adds one summand per retained occurrence. *)
Lemma get_score_loop self (len index : nat) (ratio : F) (query : list string) (acc : F) :
  dom (idf self) = dom (t2d self) →
  truediv (fmul (b self) (of_int (Z.of_nat len))) (avgdl self) = Ok ratio →
  for_each
    (λ score token,
       match t2d self !! token with
       | Some docs =>
           match docs !! index with
           | Some df =>
               idf ← getkey (idf self) token;
               term ← truediv (fmul (fmul idf (of_int (Z.of_nat df)))
                                    (fadd (k1 self) (of_int 1)))
                              (fadd (of_int (Z.of_nat df))
                                    (fmul (k1 self)
                                          (fadd (fsub (of_int 1) (b self)) ratio)));
               Ok (fadd score term)
           | None => Ok score
           end
       | None => Ok score
       end) acc query =
  (terms ← comprehension (bm25_term self len)
                         (omap (retained_occurrence self index) query);
   Ok (foldl fadd acc terms)).
Proof.
  intros Hdom Hratio. revert acc.
  induction query as [|token query IH]; intros acc; [done|].
  rewrite for_each_cons. cbv beta. cbn [omap list_omap].
  unfold retained_occurrence at 1.
  destruct (t2d self !! token) as [docs|] eqn:Ht.
  - destruct (docs !! index) as [df|] eqn:Hdf.
    + assert (is_Some (idf self !! token)) as [weight Hw].
      { apply elem_of_dom. rewrite Hdom. apply elem_of_dom. eauto. }
      rewrite (getkey_Some _ _ _ Hw), Hw.
      cbn [mbind option_bind result_bind comprehension].
      rewrite Hdf. cbn [mbind option_bind result_bind comprehension].
      rewrite (bm25_term_ratio _ _ _ _ _ Hratio).
      destruct (truediv (fmul (fmul weight _) _) _) as [term|e];
        cbn [mbind result_bind]; [|done].
      rewrite IH. by destruct (comprehension _ _).
    + cbn [mbind result_bind]. rewrite IH.
      destruct (idf self !! token); cbn [mbind option_bind]; [|done].
      by rewrite Hdf.
  - cbn [mbind result_bind]. rewrite IH. by destruct (idf self !! token).
Qed.

Lemma get_score_bm25_sum self (query : list string) (index : nat) :
  dom (idf self) = dom (t2d self) →
  is_zero (avgdl self) = false →
  get_score self query index = bm25_sum self query index.
Proof.
  intros Hdom Hz. unfold get_score, bm25_sum.
  destruct (getitem (doc_len self) index) as [len|e]; [|done].
  cbn [mbind result_bind].
  destruct (truediv (fmul (b self) (of_int (Z.of_nat len))) (avgdl self))
    as [ratio|e] eqn:Hratio.
  - cbn [mbind result_bind]. by apply get_score_loop.
  - unfold truediv in Hratio. by rewrite Hz in Hratio.
Qed.

Lemma retained_occurrence_None self (index : nat) (query : list string) :
  (∀ term, term ∈ query →
     idf self !! term = None ∨ t2d self !! term ≫= (λ docs, docs !! index) = None) →
  omap (retained_occurrence self index) query = [].
Proof.
  induction query as [|token query IH]; intros Hq; [done|].
  cbn [omap list_omap]. rewrite IH by (intros; apply Hq; by right).
  unfold retained_occurrence.
  destruct (Hq token) as [->|Hp]; [left|done|].
  destruct (idf self !! token); [|done]. cbn.
  destruct (t2d self !! token) as [docs|]; [|done]. cbn in *. by rewrite Hp.
Qed.

(** C1. For a constructed index and an in-range position, [get_score] is the
    sum of [idf * tf * (k1 + 1) / (tf + k1 * (1 - b + b * len / avgdl))] over
    the query's occurrences that have an IDF entry and a posting; when no
    occurrence has both, the score is exactly 0.0. *)
Theorem get_score_is_bm25_sum corpus (k b0 a : F) self (query : list string)
    (doc_index : nat) :
  BM25_init corpus k b0 a = Ok self →
  doc_index < corpus_size self →
  is_zero (avgdl self) = false →
  get_score self query doc_index = bm25_sum self query doc_index ∧
  ((∀ term, term ∈ query →
      idf self !! term = None ∨
      t2d self !! term ≫= (λ docs, docs !! doc_index) = None) →
   get_score self query doc_index = Ok (of_int 0)).
Proof.
  intros Hinit Hrange Hz.
  destruct (BM25_init_invariant _ _ _ _ _ Hinit) as [Hdom _].
  split; [by apply get_score_bm25_sum|].
  intros Hnone. rewrite get_score_bm25_sum by done. unfold bm25_sum.
  destruct (getitem_lt (doc_len self) doc_index Hrange) as (len & -> & _).
  cbn [mbind result_bind]. by rewrite retained_occurrence_None.
Qed.


Lemma get_score_no_AssertionError (self : BM25 F) (query : list string) (i : nat) :
  get_score self query i ≠ Raise AssertionError.
Proof.
  unfold get_score, getitem, truediv. destruct (doc_len self !! i); [|done].
  cbn [mbind result_bind]. destruct (is_zero (avgdl self)); [done|].
  cbn [mbind result_bind]. intros (s & token & _ & Hbody)%for_each_Raise.
  destruct (t2d self !! token) as [docs|]; [|done].
  destruct (docs !! i); [|done]. unfold getkey in Hbody.
  destruct (idf self !! token); [|done]. cbn [mbind result_bind] in Hbody.
  by destruct (is_zero _).
Qed.

End Scoring.

(** ** Ranking *)

Section Ranking.
Context {F : Type} `{PyFloat F} `{!PyFloatOrder F} `{PySet}.

Lemma insert_desc_Permutation {A : Type} (x : F * A) (l : list (F * A)) :
  insert_desc x l ≡ₚ x :: l.
Proof.
  induction l as [|y l IH]; [done|]. cbn [insert_desc].
  destruct (fltb x.1 y.1); [|done]. by rewrite IH, Permutation_swap.
Qed.

Lemma sort_desc_Permutation {A : Type} (l : list (F * A)) : sort_desc l ≡ₚ l.
Proof.
  unfold sort_desc. induction l as [|x l IH]; [done|].
  cbn [foldr]. by rewrite insert_desc_Permutation, IH.
Qed.



(** [heapq.nlargest] returns when every key is computed, and what it returns
    is a prefix of the keyed elements in descending order. *)
Lemma nlargest_spec {A : Type} (P : F → Prop) (n : nat) (l : list A)
    (key : A → result F) :
  (∀ x, x ∈ l → ∃ k, key x = Ok k ∧ P k) →
  ∃ keyed : list (F * A),
    keyed.*2 = l ∧
    Forall (λ kx, key kx.2 = Ok kx.1 ∧ P kx.1) keyed ∧
    nlargest n l key = Ok (take n (sort_desc keyed)).*2.
Proof.
  intros Hkey.
  assert (∃ keyed : list (F * A), keyed.*2 = l ∧
            Forall (λ kx, key kx.2 = Ok kx.1 ∧ P kx.1) keyed ∧
            comprehension (λ x, k ← key x; Ok (k, x)) l = Ok keyed)
    as (keyed & Hl & Hk & Hcomp).
  { induction l as [|x l IH].
    - exists []. by repeat split.
    - destruct (Hkey x) as (k & Hk & Hc); [left|].
      destruct IH as (keyed & Hl & Hks & Hcomp); [intros; apply Hkey; by right|].
      exists ((k, x) :: keyed). split_and!.
      + cbn. by rewrite Hl.
      + by constructor.
      + cbn [comprehension]. rewrite Hk. cbn [mbind result_bind].
        by rewrite Hcomp. }
  exists keyed. split_and!; [done|done|].
  unfold nlargest. destruct n as [|n]; [done|]. by rewrite Hcomp.
Qed.

Lemma elem_of_posting_indexes (self : BM25 F) (query : list string) (i : nat) :
  i ∈ posting_indexes self query ↔ i ∈ candidate_set self query.
Proof.
  unfold posting_indexes, candidate_set.
  rewrite list_elem_of_In, in_flat_map, elem_of_union_list. split.
  - intros (token & Hq%list_elem_of_In & Hi%list_elem_of_In).
    exists (dom (default ∅ (t2d self !! token))). split.
    + apply list_elem_of_fmap. eauto.
    + destruct (t2d self !! token) as [docs|]; [|by apply elem_of_nil in Hi].
      apply list_elem_of_fmap in Hi as ([i' c] & -> & Hic%elem_of_map_to_list).
      apply elem_of_dom. cbn. eauto.
  - intros (X & (token & -> & Hq)%list_elem_of_fmap & Hi).
    exists token. split; [by apply list_elem_of_In|]. apply list_elem_of_In.
    destruct (t2d self !! token) as [docs|]; [|by apply elem_of_dom in Hi as [? ?]].
    cbn in Hi. apply elem_of_dom in Hi as [c Hc].
    apply list_elem_of_fmap. exists (i, c). split; [done|]. by apply elem_of_map_to_list.
Qed.

(** Lines 140-146: the positions selected, and those left out, form one
    descending enumeration of the candidate set. *)
Lemma top_indexes_spec `{PySet} (P : F → Prop) (self : BM25 F) (query : list string)
    (n : nat) :
  (∀ i, i ∈ candidate_set self query → ∃ s, get_score self query i = Ok s ∧ P s) →
  ∃ keyed : list (F * nat),
    top_indexes self query n = Ok (take n (sort_desc keyed)).*2 ∧
    (sort_desc keyed).*2 ≡ₚ set_iter (posting_indexes self query) ∧
    Forall (λ kx, get_score self query kx.2 = Ok kx.1 ∧ P kx.1) (sort_desc keyed).
Proof.
  intros Hscore. unfold top_indexes.
  destruct (nlargest_spec P n (set_iter (posting_indexes self query))
              (λ idx, get_score self query idx)) as (keyed & Hl & Hk & Hn).
  { intros i Hi%set_iter_elem_of%elem_of_posting_indexes. by apply Hscore. }
  exists keyed. split_and!; [done| |].
  - by rewrite sort_desc_Permutation, Hl.
  - by rewrite sort_desc_Permutation.
Qed.

Lemma candidate_in_range (self : BM25 F) (query : list string) (i : nat) :
  index_invariant self → i ∈ candidate_set self query → i < corpus_size self.
Proof.
  intros [_ Hrange] (X & (token & -> & Hq)%list_elem_of_fmap & Hi)%elem_of_union_list.
  destruct (t2d self !! token) as [docs|] eqn:Ht; [|by apply elem_of_dom in Hi as [? ?]].
  cbn in Hi. apply elem_of_dom in Hi as [c Hc]. by eapply Hrange.
Qed.


(** C10. [get_top_n] returns one document per selected position, and no
    position is selected twice. *)
Theorem get_top_n_positions_distinct {D : Type} (corpus : list (list string))
    (k b0 a : F) (self : BM25 F) (query : list string) (documents : list D)
    (n : nat) :
  BM25_init corpus k b0 a = Ok self →
  length documents = corpus_size self →
  (∀ i, i ∈ candidate_set self query → ∃ s, get_score self query i = Ok s) →
  ∃ (top : list nat) (returned : list D),
    top_indexes self query n = Ok top ∧
    get_top_n self query documents n = Ok returned ∧
    NoDup top ∧
    (∀ i, i ∈ top → i ∈ candidate_set self query) ∧
    Forall2 (λ i d, documents !! i = Some d) top returned.
Proof.
  intros Hinit Hlen Hscore.
  apply BM25_init_invariant in Hinit.
  destruct (top_indexes_spec (λ _, True) self query n)
    as (keyed & Htop & Hperm & _).
  { intros i [s Hs]%Hscore. eauto. }
  set (sorted := sort_desc keyed) in *.
  assert (NoDup sorted.*2) as Hnd.
  { rewrite Hperm. apply set_iter_NoDup. }
  rewrite <-(take_drop n sorted), fmap_app in Hnd, Hperm.
  set (top := (take n sorted).*2) in *.
  assert (∀ i, i ∈ top → i ∈ candidate_set self query) as Hcand.
  { intros i Hi. apply elem_of_posting_indexes, set_iter_elem_of.
    rewrite <-Hperm. apply elem_of_app. by left. }
  destruct (comprehension_getitem documents top) as (result & Hres & Hdocs).
  { intros i Hi%Hcand. rewrite Hlen. by eapply candidate_in_range. }
  exists top, result. split_and!; [done| |by apply NoDup_app in Hnd as [? _]|done|done].
  unfold get_top_n. rewrite decide_True by done. by rewrite Htop.
Qed.

(** C8. A [documents] list whose length is not the corpus size makes
    [get_top_n] raise the assertion's error at once, and with the right
    length that error cannot occur. *)
Theorem get_top_n_length_contract {D : Type} (self : BM25 F) (query : list string)
    (documents : list D) (n : nat) :
  (length documents ≠ corpus_size self →
   get_top_n self query documents n = Raise AssertionError) ∧
  (length documents = corpus_size self →
   get_top_n self query documents n ≠ Raise AssertionError).
Proof.
  unfold get_top_n. split; intros Hlen.
  - by rewrite decide_False.
  - rewrite decide_True by done. unfold top_indexes, nlargest.
    destruct n as [|n]; [done|].
    destruct (comprehension _ _) as [keyed|e] eqn:Hkeys; cbn [mbind result_bind].
    + intros (i & _ & Hi)%comprehension_Raise. unfold getitem in Hi.
      by destruct (documents !! i).
    + intros [= ->]. apply comprehension_Raise in Hkeys as (i & _ & Hi).
      destruct (get_score self query i) as [s|e] eqn:Hs; [done|].
      cbn in Hi. injection Hi as ->. by apply get_score_no_AssertionError in Hs.
Qed.

End Ranking.

(** ** Persistence *)

Lemma int_str (i : nat) : int (str i) = Ok i.
Proof.
  unfold int, str. rewrite NilZero.usu.
  - by rewrite DecimalNat.Unsigned.of_to.
  - intros Hnil. pose proof (DecimalNat.Unsigned.of_to i) as Hi.
    rewrite Hnil in Hi. cbn in Hi. subst i. done.
Qed.

#[global] Instance str_inj : Inj (=) (=) str.
Proof. intros i j Hij. pose proof (int_str i) as Hi. rewrite Hij, int_str in Hi. congruence. Qed.

Section DictComprehension.
Context {K K' : Type} `{Countable K} `{Countable K'} {V V' : Type}.

Lemma dict_comprehension_fold (item : K → V → result (K' * V')) (g : K → V → K' * V')
    (l : list (K * V)) (acc : gmap K' V') :
  NoDup l →
  (∀ k v, (k, v) ∈ l → item k v = Ok (g k v)) →
  (∀ k1 v1 k2 v2, (k1, v1) ∈ l → (k2, v2) ∈ l → (g k1 v1).1 = (g k2 v2).1 →
                  (k1, v1) = (k2, v2)) →
  ∃ m, for_each (λ acc '(k, v), kv ← item k v; Ok (<[kv.1 := kv.2]> acc)) acc l = Ok m ∧
       ∀ k' v', m !! k' = Some v' ↔
         (∃ k v, (k, v) ∈ l ∧ g k v = (k', v')) ∨
         (acc !! k' = Some v' ∧ ∀ k v, (k, v) ∈ l → (g k v).1 ≠ k').
Proof.
  revert acc. induction l as [|[k v] l IH]; intros acc Hnd Hitem Hinj.
  - exists acc. split; [done|]. intros k' v'. split.
    + intros ?. right. split; [done|]. by intros ?? ?%elem_of_nil.
    + by intros [(? & ? & ?%elem_of_nil & _)|[? _]].
  - apply NoDup_cons in Hnd as [Hkv Hnd].
    rewrite for_each_cons. rewrite (Hitem k v) by left. cbn [mbind result_bind].
    destruct (IH (<[(g k v).1 := (g k v).2]> acc)) as (m & -> & Hm).
    { done. }
    { intros; apply Hitem; by right. }
    { intros; apply Hinj; by try right. }
    exists m. split; [done|]. intros k' v'. rewrite Hm. split.
    + intros [(k0 & v0 & Hin & Hg)|[Hacc Hfresh]].
      * left. exists k0, v0. split; [by right|done].
      * destruct (decide ((g k v).1 = k')) as [Hk|Hk].
        -- left. exists k, v. split; [by left|].
           rewrite <-Hk, lookup_insert_eq in Hacc. injection Hacc as <-.
           rewrite <-Hk. by destruct (g k v).
        -- right. rewrite lookup_insert_ne in Hacc by done. split; [done|].
           intros k0 v0 [[= -> ->]|Hin]%elem_of_cons; [done|by eapply Hfresh].
    + intros [(k0 & v0 & [[= -> ->]|Hin]%elem_of_cons & Hg)|[Hacc Hfresh]].
      * right. rewrite Hg. cbn. rewrite lookup_insert_eq. split; [done|].
        intros k1 v1 Hin Hk1.
        assert ((k1, v1) = (k, v)) as [= -> ->].
        { apply Hinj; [by right|by left|]. by rewrite Hk1, Hg. }
        done.
      * left. eauto.
      * right. split.
        -- rewrite lookup_insert_ne; [done|]. apply (Hfresh k v). by left.
        -- intros k0 v0 Hin. apply Hfresh. by right.
Qed.

Lemma dict_comprehension_spec (item : K → V → result (K' * V')) (g : K → V → K' * V')
    (d : gmap K V) :
  (∀ k v, d !! k = Some v → item k v = Ok (g k v)) →
  (∀ k1 v1 k2 v2, d !! k1 = Some v1 → d !! k2 = Some v2 →
                  (g k1 v1).1 = (g k2 v2).1 → k1 = k2) →
  ∃ m, dict_comprehension item d = Ok m ∧
       ∀ k' v', m !! k' = Some v' ↔ ∃ k v, d !! k = Some v ∧ g k v = (k', v').
Proof.
  intros Hitem Hinj. unfold dict_comprehension.
  destruct (dict_comprehension_fold item g (map_to_list d) ∅) as (m & Hm & Hlook).
  - apply NoDup_map_to_list.
  - intros k v ?%elem_of_map_to_list. by apply Hitem.
  - intros k1 v1 k2 v2 H1%elem_of_map_to_list H2%elem_of_map_to_list Hg.
    assert (k1 = k2) as -> by by eapply Hinj. congruence.
  - exists m. split; [done|]. intros k' v'. rewrite Hlook. split.
    + intros [(k & v & ?%elem_of_map_to_list & ?)|[? _]]; [eauto|done].
    + intros (k & v & ?%elem_of_map_to_list & ?). left. eauto.
Qed.

End DictComprehension.

Lemma int_keys_json_keys (docs : gmap nat nat) : int_keys (json_keys docs) = Ok docs.
Proof.
  unfold int_keys, json_keys.
  destruct (dict_comprehension_spec (λ i f, i' ← int i; Ok (i', f))
              (λ s f, (match int s with Ok i => i | Raise _ => 0 end, f))
              (kmap str docs)) as (m & -> & Hm).
  - intros s f (i & -> & _)%lookup_kmap_Some; [|apply _]. by rewrite int_str.
  - intros s1 f1 s2 f2 (i1 & -> & _)%lookup_kmap_Some (i2 & -> & _)%lookup_kmap_Some;
      [|apply _..].
    rewrite !int_str. cbn. by intros ->.
  - f_equal. apply map_eq. intros i. apply option_eq. intros f. rewrite Hm. split.
    + intros (s & f' & (i' & -> & Hi')%lookup_kmap_Some & Hg); [|apply _].
      rewrite int_str in Hg. by simplify_eq.
    + intros Hi. exists (str i), f. split; [rewrite lookup_kmap; [done|apply _]|].
      by rewrite int_str.
Qed.

Lemma restore_keys_json_keys (t : gmap string (gmap nat nat)) :
  restore_keys (json_keys <$> t) = Ok t.
Proof.
  unfold restore_keys.
  destruct (dict_comprehension_spec
              (λ tok docs, docs' ← int_keys docs; Ok (tok, docs'))
              (λ tok docs, (tok, match int_keys docs with Ok d => d | Raise _ => ∅ end))
              (json_keys <$> t)) as (m & -> & Hm).
  - intros tok dj (docs & <- & _)%lookup_fmap_Some. by rewrite int_keys_json_keys.
  - by intros tok1 ? tok2 ? _ _ ?.
  - f_equal. apply map_eq. intros tok. apply option_eq. intros docs. rewrite Hm. split.
    + intros (tok' & dj & (docs' & <- & Hd)%lookup_fmap_Some & Hg).
      rewrite int_keys_json_keys in Hg. by simplify_eq.
    + intros Ht. exists tok, (json_keys docs). split.
      * by rewrite lookup_fmap, Ht.
      * by rewrite int_keys_json_keys.
Qed.

Section Persistence.
Context {F : Type} `{PyFloat F}.

Lemma load_save (x : BM25 F) (filename : string) (fs : gmap string (json_object F)) :
  load filename (save x filename fs) =
    Ok {| k1 := k1 x; b := b x; alpha := alpha x; avgdl := avgdl x; t2d := t2d x;
          idf := idf x; doc_len := doc_len x; average_idf := None |}.
Proof.
  unfold load, save. rewrite lookup_insert_eq. cbn [json_t2d].
  by rewrite restore_keys_json_keys.
Qed.

(** C3. Loading what [save] wrote gives an index with the same tables, the
    posting keys being integers again, and the same score for every query
    and position. *)
Theorem load_save_scores_identically
    (x : BM25 F) (filename : string) (fs : gmap string (json_object F)) :
  ∃ y : BM25 F,
    load filename (save x filename fs) = Ok y ∧
    json_t2d <$> (save x filename fs !! (filename +:+ ".json"))
      = Some (json_keys <$> t2d x) ∧
    t2d y = t2d x ∧ idf y = idf x ∧ doc_len y = doc_len x ∧
    ∀ (query : list string) (doc_index : nat),
      get_score y query doc_index = get_score x query doc_index.
Proof.
  eexists. split; [apply load_save|]. split_and!; try done.
  unfold save. by rewrite lookup_insert_eq.
Qed.

(** C4. A term has an IDF entry exactly when it has postings, in every
    constructed index and in the index that [load] rebuilds from what [save]
    wrote. *)
Theorem idf_terms_are_posting_terms (corpus : list (list string)) (k b0 a : F)
    (self : BM25 F) :
  BM25_init corpus k b0 a = Ok self →
  (∀ term, is_Some (idf self !! term) ↔ is_Some (t2d self !! term)) ∧
  (∀ (filename : string) (fs : gmap string (json_object F)) (loaded : BM25 F),
     load filename (save self filename fs) = Ok loaded →
     ∀ term, is_Some (idf loaded !! term) ↔ is_Some (t2d loaded !! term)).
Proof.
  intros [Hdom _]%BM25_init_invariant.
  assert (∀ term, is_Some (idf self !! term) ↔ is_Some (t2d self !! term)) as Hiff.
  { intros term. by rewrite <-!elem_of_dom, Hdom. }
  split; [done|]. intros filename fs loaded. rewrite load_save. by intros [= <-].
Qed.

End Persistence.

(** ** The order of the two arithmetics *)

Ltac compare_cases :=
  repeat match goal with
  | |- context [(?a ?= ?b)%Z] => destruct (Z.compare_spec a b)
  | H : context [(?a ?= ?b)%Z] |- _ => destruct (Z.compare_spec a b)
  | |- context [Pos.compare_cont Eq ?a ?b] =>
      change (Pos.compare_cont Eq a b) with (a ?= b)%positive
  | H : context [Pos.compare_cont Eq ?a ?b] |- _ =>
      change (Pos.compare_cont Eq a b) with (a ?= b)%positive in H
  | |- context [(?a ?= ?b)%positive] => destruct (Pos.compare_spec a b)
  | H : context [(?a ?= ?b)%positive] |- _ => destruct (Pos.compare_spec a b)
  end.

Lemma SFltb_asym (x y : spec_float) : SFltb x y = true → SFltb y x = false.
Proof.
  unfold SFltb, SFcompare.
  destruct x as [[]|[]| |[] mx ex], y as [[]|[]| |[] my ey]; try done;
    compare_cases; cbn; try done; lia.
Qed.

Lemma SFltb_ge_trans (x y z : spec_float) :
  y ≠ S754_nan → SFltb x y = false → SFltb y z = false → SFltb x z = false.
Proof.
  unfold SFltb, SFcompare.
  destruct x as [[]|[]| |[] mx ex], y as [[]|[]| |[] my ey], z as [[]|[]| |[] mz ez];
    try done; intros _; compare_cases; cbn; try done; lia.
Qed.

Lemma not_nan_spec (x : float) : not_nan x → Prim2SF x ≠ S754_nan.
Proof.
  unfold not_nan, PrimFloat.is_nan. rewrite FloatAxioms.eqb_spec. intros Hx Hnan.
  rewrite Hnan in Hx. done.
Qed.

#[global] Program Instance binary64_order : PyFloatOrder float := {|
  comparable := not_nan
|}.
Next Obligation. intros x y. cbn. rewrite !FloatAxioms.ltb_spec. apply SFltb_asym. Qed.
Next Obligation.
  intros x y z Hy%not_nan_spec. cbn. rewrite !FloatAxioms.ltb_spec. by apply SFltb_ge_trans.
Qed.

#[global] Program Instance exact_real_order : PyFloatOrder R := {|
  comparable := λ _, True
|}.
Next Obligation.
  intros x y. cbn. rewrite bool_decide_eq_true, bool_decide_eq_false. lra.
Qed.
Next Obligation.
  intros x y z _. cbn. rewrite !bool_decide_eq_false. lra.
Qed.

(** ** Exact arithmetic *)

Section Exact.
Implicit Types (corpus : list (list string)) (self : BM25 R).
Open Scope R_scope.











End Exact.

(** ** The examples, evaluated *)

Lemma example_index_built :
  BM25_init example_corpus 1.5%float 0.75%float (-10)%float = Ok example_index.
Proof. vm_compute. reflexivity. Qed.

Lemma example_scores (i : nat) :
  i ∈ candidate_set example_index ["cat"; "the"] →
  ∃ s, get_score example_index ["cat"; "the"] i = Ok s ∧ not_nan s.
Proof.
  assert (candidate_set example_index ["cat"; "the"] = list_to_set [0; 1; 2])
    as -> by (vm_compute; reflexivity).
  intros Hi.
  assert (i = 0 ∨ i = 1 ∨ i = 2) as [->|[->| ->]] by set_solver;
    eexists; split; vm_compute; reflexivity.
Qed.

Lemma example_scores_repeated (i : nat) :
  i ∈ candidate_set example_index ["cat"; "the"; "cat"] →
  ∃ s, get_score example_index ["cat"; "the"; "cat"] i = Ok s.
Proof.
  assert (candidate_set example_index ["cat"; "the"; "cat"] = list_to_set [0; 1; 2])
    as -> by (vm_compute; reflexivity).
  intros Hi.
  assert (i = 0 ∨ i = 1 ∨ i = 2) as [->|[->| ->]] by set_solver;
    eexists; vm_compute; reflexivity.
Qed.


(** C1 on the example index: a query with a repeated term, and a query of
    which no term has a posting in document 0. *)
Lemma get_score_is_bm25_sum_witness :
  BM25_init example_corpus 1.5%float 0.75%float (-10)%float = Ok example_index ∧
  get_score example_index ["cat"; "sat"; "cat"] 0
    = bm25_sum example_index ["cat"; "sat"; "cat"] 0 ∧
  get_score example_index ["dog"; "bird"] 0 = Ok 0%float.
Proof.
  split; [exact example_index_built|]. split.
  - apply (get_score_is_bm25_sum example_corpus 1.5%float 0.75%float (-10)%float
             example_index ["cat"; "sat"; "cat"] 0 example_index_built);
      vm_compute; [lia|reflexivity].
  - apply (get_score_is_bm25_sum example_corpus 1.5%float 0.75%float (-10)%float
             example_index ["dog"; "bird"] 0 example_index_built).
    + vm_compute. lia.
    + vm_compute. reflexivity.
    + intros term [->|[->|[]%elem_of_nil]%elem_of_cons]%elem_of_cons.
      * right. vm_compute. reflexivity.
      * left. vm_compute. reflexivity.
Defined.


(** C4 on the example index. *)
Lemma idf_terms_are_posting_terms_witness :
  BM25_init example_corpus 1.5%float 0.75%float (-10)%float = Ok example_index ∧
  (∀ term, is_Some (idf example_index !! term) ↔ is_Some (t2d example_index !! term)) ∧
  (∀ (filename : string) (fs : gmap string (json_object float)) (loaded : BM25 float),
     load filename (save example_index filename fs) = Ok loaded →
     ∀ term, is_Some (idf loaded !! term) ↔ is_Some (t2d loaded !! term)).
Proof.
  split; [exact example_index_built|].
  exact (idf_terms_are_posting_terms example_corpus 1.5%float 0.75%float (-10)%float
           example_index example_index_built).
Defined.

(** C5 on the example corpus with [alpha = 0]: ["sat"] (one document of
    three) is kept with its weight, ["cat"] (two of three) is dropped. *)
Lemma idf_weight_and_retention_witness :
  BM25_init example_corpus 1.5%float 0.75%float 0%float
    = Ok (built (BM25_init example_corpus 1.5%float 0.75%float 0%float)) ∧
  (let self := built (BM25_init example_corpus 1.5%float 0.75%float 0%float) in
   idf self !! "sat" = Some (libm_log (2 + 0.5) - libm_log (1 + 0.5))%float ∧
   idf self !! "cat" = None ∧ t2d self !! "cat" = None).
Proof.
  assert (BM25_init example_corpus 1.5%float 0.75%float 0%float
          = Ok (built (BM25_init example_corpus 1.5%float 0.75%float 0%float)))
    as Hinit by (vm_compute; reflexivity).
  split; [exact Hinit|]. cbv zeta. split.
  - pose proof (idf_weight_and_retention example_corpus 1.5%float 0.75%float 0%float
                  _ "sat" ltac:(done) Hinit ltac:(vm_compute; lia)) as Hsat.
    cbv zeta in Hsat.
    replace (fltb _ _) with true in Hsat by (vm_compute; reflexivity).
    destruct Hsat as [Hsat _]. rewrite Hsat. vm_compute. reflexivity.
  - pose proof (idf_weight_and_retention example_corpus 1.5%float 0.75%float 0%float
                  _ "cat" ltac:(done) Hinit ltac:(vm_compute; lia)) as Hcat.
    cbv zeta in Hcat.
    replace (fltb _ _) with false in Hcat by (vm_compute; reflexivity).
    exact Hcat.
Defined.



(** C7. With the default [alpha = 3] every term of the example corpus is
    pruned, and with [alpha = inf] every term of any corpus: the constructor
    raises [ZeroDivisionError] (line 86) instead of returning an index. *)
Theorem pruning_every_term_raises :
  BM25_init example_corpus 1.5%float 0.75%float 3%float = Raise ZeroDivisionError ∧
  BM25_init [["a"]] 1.5%float 0.75%float infinity = Raise ZeroDivisionError.
Proof. split; vm_compute; reflexivity. Qed.

(** C8 on the example index, with two and with three documents. *)
Lemma get_top_n_length_contract_witness :
  get_top_n example_index ["cat"] ["d0"; "d1"] 5 = Raise AssertionError ∧
  get_top_n example_index ["cat"] ["d0"; "d1"; "d2"] 5 ≠ Raise AssertionError.
Proof.
  split.
  - apply (get_top_n_length_contract example_index ["cat"] ["d0"; "d1"] 5).
    vm_compute. lia.
  - apply (get_top_n_length_contract example_index ["cat"] ["d0"; "d1"; "d2"] 5).
    vm_compute. reflexivity.
Defined.



(** C10 on the example index, with a query that repeats a term. *)
Lemma get_top_n_positions_distinct_witness :
  ∃ (top : list nat) (returned : list string),
    top_indexes example_index ["cat"; "the"; "cat"] 5 = Ok top ∧
    get_top_n example_index ["cat"; "the"; "cat"] ["d0"; "d1"; "d2"] 5 = Ok returned ∧
    NoDup top ∧
    (∀ i, i ∈ top → i ∈ candidate_set example_index ["cat"; "the"; "cat"]) ∧
    Forall2 (λ i d, ["d0"; "d1"; "d2"] !! i = Some d) top returned.
Proof.
  apply (get_top_n_positions_distinct example_corpus 1.5%float 0.75%float
           (-10)%float example_index ["cat"; "the"; "cat"] ["d0"; "d1"; "d2"] 5
           example_index_built).
  - vm_compute. reflexivity.
  - exact example_scores_repeated.
Defined.

(** * Further properties of the code *)

(** ** Construction *)

Section ConstructionFurther.
Context {F : Type} `{PyFloat F}.
Implicit Types (corpus : list (list string)) (self : BM25 F).

Lemma document_frequency_le corpus (term : string) :
  document_frequency corpus term ≤ length corpus.
Proof. unfold document_frequency. apply length_filter. Qed.

(** X1 (lines 25-55, 61-94). Construction from a non-empty corpus returns an
    index exactly when some term of the corpus has an IDF above [alpha]; its
    only failure is the division of line 86. *)
Theorem construction_needs_a_retained_term corpus (k b0 a : F) :
  corpus ≠ [] →
  ((∃ self, BM25_init corpus k b0 a = Ok self) ↔
   ∃ term, 0 < document_frequency corpus term ∧
           fltb a (idf_weight (length corpus) (document_frequency corpus term)) = true) ∧
  (∀ e, BM25_init corpus k b0 a = Raise e → e = ZeroDivisionError).
Proof.
  intros Hne. split; [split|].
  - intros [self Hinit].
    destruct (BM25_init_some_term _ _ _ _ _ Hne Hinit) as (term & Hdf & Hsome).
    exists term. split; [done|].
    pose proof (BM25_init_term _ _ _ _ _ term Hinit) as Ht. cbv zeta in Ht.
    destruct Ht as [(_ & ? & _)|(_ & Hnone & _)]; [done|].
    rewrite Hnone in Hsome. by destruct Hsome.
  - intros (term & Hdf & Hlt). by apply (BM25_init_retained corpus k b0 a term).
  - intros e. rewrite BM25_init_unfold by done. case_decide; congruence.
Qed.

(** X2 (lines 46-59, 63-64, 73). A constructed index keeps the three
    parameters, has the size of the corpus, and records the length of every
    document in corpus order and the mean of those lengths. *)
Theorem construction_records_the_corpus corpus (k b0 a : F) self :
  BM25_init corpus k b0 a = Ok self →
  k1 self = k ∧ b self = b0 ∧ alpha self = a ∧
  corpus_size self = length corpus ∧
  (∀ i, doc_len self !! i = length <$> corpus !! i) ∧
  avgdl self = match corpus with
               | [] => of_int 0
               | _ => fdiv (of_int (sum_int (length <$> corpus)))
                           (of_int (Z.of_nat (length corpus)))
               end.
Proof.
  intros Hinit.
  destruct (BM25_init_params _ _ _ _ _ Hinit) as (Hk & Hb & Ha & Hlen).
  split_and!; [done|done|done|by eapply BM25_init_corpus_size| |].
  - intros i. by rewrite Hlen, list_lookup_fmap.
  - destruct corpus as [|d corpus]; [by apply BM25_init_nil in Hinit as ->|].
    by apply (BM25_init_avgdl _ k b0 a).
Qed.

(** X3 (lines 66-71, 83-84). Every posting of a constructed index is the count
    of a term in a document that contains it: the position is one of the
    corpus, the count is at least 1 and at most the document's length, and no
    term is left with an empty table of postings. *)
Theorem postings_count_occurrences corpus (k b0 a : F) self (term : string)
    (docs : gmap nat nat) :
  BM25_init corpus k b0 a = Ok self →
  t2d self !! term = Some docs →
  docs ≠ ∅ ∧
  ∀ i c, docs !! i = Some c →
    ∃ document, corpus !! i = Some document ∧ term ∈ document ∧
                c = term_frequency term document ∧
                doc_len self !! i = Some (length document) ∧
                1 ≤ c ≤ length document.
Proof.
  intros Hinit Hdocs.
  pose proof (BM25_init_term _ _ _ _ _ term Hinit) as Ht. cbv zeta in Ht.
  destruct Ht as [(Hdf & _ & _ & docs' & Hdocs' & Hsize & Hlook)|(_ & _ & Hnone)];
    [|congruence].
  assert (docs' = docs) as -> by congruence. split.
  - intros ->. rewrite map_size_empty in Hsize. lia.
  - intros i c Hc. rewrite Hlook in Hc. unfold posting_of in Hc.
    destruct (corpus !! i) as [document|] eqn:Hi; [|done].
    cbn [mbind option_bind] in Hc. case_decide as Hin; [|done]. injection Hc as <-.
    exists document. split_and!; [done|done|done| | |apply term_frequency_le].
    + destruct (BM25_init_params _ _ _ _ _ Hinit) as (_ & _ & _ & ->).
      by rewrite list_lookup_fmap, Hi.
    + by apply term_frequency_pos.
Qed.


End ConstructionFurther.

(** ** Scoring *)

Section ScoringFurther.
Context {F : Type} `{PyFloat F}.
Implicit Types (corpus : list (list string)) (self : BM25 F).

(** Past the last position, line 113 raises before the query is read. *)
Lemma get_score_out_of_range self (query : list string) (index : nat) :
  corpus_size self ≤ index → get_score self query index = Raise IndexError.
Proof.
  intros Hge. unfold get_score, getitem.
  by rewrite (lookup_ge_None_2 (doc_len self) index).
Qed.

(** When the two tables have the same terms, line 117 finds its key, and the
    two divisions are all that can fail at a position of the corpus. *)
Lemma get_score_in_range_Raise self (query : list string) (index : nat) (e : exn) :
  dom (idf self) = dom (t2d self) →
  index < corpus_size self →
  get_score self query index = Raise e → e = ZeroDivisionError.
Proof.
  intros Hdom Hlt. unfold get_score.
  destruct (getitem_lt (doc_len self) index Hlt) as (len & -> & _).
  cbn [mbind result_bind].
  destruct (truediv _ (avgdl self)) as [ratio|e'] eqn:Hratio; cbn [mbind result_bind].
  2:{ intros [= ->]. unfold truediv in Hratio.
      destruct (is_zero (avgdl self)); congruence. }
  intros (s & token & _ & Hbody)%for_each_Raise.
  destruct (t2d self !! token) as [docs|] eqn:Ht; [|done].
  destruct (docs !! index) as [df|]; [|done].
  assert (is_Some (idf self !! token)) as [weight Hw].
  { apply elem_of_dom. rewrite Hdom. apply elem_of_dom. eauto. }
  rewrite (getkey_Some _ _ _ Hw) in Hbody. cbn [mbind result_bind] in Hbody.
  unfold truediv in Hbody.
  destruct (is_zero _); cbn [mbind result_bind] in Hbody; congruence.
Qed.

(** X5 (lines 111-119). On a constructed index [get_score] raises [IndexError]
    past the last position; at a position of the corpus the lookup
    [self.idf[token]] never raises [KeyError], and a division by zero is the
    only failure there is. *)
Theorem get_score_failures corpus (k b0 a : F) self (query : list string)
    (index : nat) :
  BM25_init corpus k b0 a = Ok self →
  (corpus_size self ≤ index → get_score self query index = Raise IndexError) ∧
  (index < corpus_size self →
   ∀ e, get_score self query index = Raise e → e = ZeroDivisionError).
Proof.
  intros [Hdom _]%BM25_init_invariant. split.
  - apply get_score_out_of_range.
  - intros Hlt e. by apply get_score_in_range_Raise.
Qed.

(** X6 (lines 114-118). The tokens of the query without a posting at the
    position scored (never seen in the corpus, pruned, or absent from that
    document) take no part in the score: dropping them from the query changes
    neither the value nor the failure. *)
Theorem get_score_skips_tokens_without_posting self (query : list string)
    (index : nat) :
  get_score self
    (filter (λ token, is_Some (t2d self !! token ≫= λ docs, docs !! index)) query)
    index
  = get_score self query index.
Proof.
  unfold get_score.
  destruct (getitem (doc_len self) index) as [len|e]; [|done].
  cbn [mbind result_bind].
  destruct (truediv _ (avgdl self)) as [ratio|e]; [|done].
  cbn [mbind result_bind]. generalize (of_int 0).
  induction query as [|token query IH]; intros acc; [done|].
  rewrite filter_cons. case_decide as Hp.
  - rewrite !for_each_cons.
    match goal with
    | |- ?m ≫= _ = _ => destruct m as [acc'|e]
    end; cbn [mbind result_bind]; [apply IH|done].
  - rewrite for_each_cons, IH.
    destruct (t2d self !! token) as [docs|]; [|done].
    cbn [mbind option_bind] in Hp. destruct (docs !! index); [|done].
    destruct Hp. by eexists.
Qed.

End ScoringFurther.

(** ** Ranking *)

Section RankingFurther.
Context {F : Type} `{PyFloat F} `{!PyFloatOrder F} `{PySet}.
Implicit Types (corpus : list (list string)) (self : BM25 F).

Lemma comprehension_take {A B : Type} (f : A → result B) (l : list A) (ys : list B)
    (n : nat) :
  comprehension f l = Ok ys → comprehension f (take n l) = Ok (take n ys).
Proof.
  rewrite !comprehension_Ok. apply Forall2_take.
Qed.

(** The keys that [heapq.nlargest] computed are paired with the elements in
    the order of the iterable. *)
Lemma keyed_elements {A : Type} (key : A → result F) (l : list A)
    (keyed : list (F * A)) :
  comprehension (λ x, k ← key x; Ok (k, x)) l = Ok keyed →
  keyed.*2 = l ∧ Forall (λ kx, key kx.2 = Ok kx.1) keyed.
Proof.
  rewrite comprehension_Ok. induction 1 as [|x [k x'] l keyed Hx _ [IH1 IH2]].
  - by split; [|constructor].
  - apply bind_Ok in Hx as (k' & Hk & [= -> ->]). cbn [fmap list_fmap snd].
    split; [by rewrite <-IH1|]. by constructor.
Qed.

(** What [heapq.nlargest] returns: the first [n] of the keyed elements in
    descending order. *)
Lemma nlargest_Ok {A : Type} (n : nat) (l : list A) (key : A → result F)
    (top : list A) :
  nlargest n l key = Ok top →
  (n = 0 ∧ top = []) ∨
  ∃ keyed, comprehension (λ x, k ← key x; Ok (k, x)) l = Ok keyed ∧
           top = (take n (sort_desc keyed)).*2.
Proof.
  unfold nlargest. destruct n as [|n]; [intros [= <-]; by left|].
  intros (keyed & Hkeyed & [= <-])%bind_Ok. right. eauto.
Qed.

(** The positions selected are distinct candidates, at most [n] of them. *)
Lemma top_indexes_Ok self (query : list string) (n : nat) (top : list nat) :
  top_indexes self query n = Ok top →
  NoDup top ∧ length top ≤ n ∧ ∀ i, i ∈ top → i ∈ candidate_set self query.
Proof.
  unfold top_indexes. intros [[-> ->]|(keyed & Hkeyed & ->)]%nlargest_Ok.
  { split_and!; [constructor|done|by intros ? ?%elem_of_nil]. }
  apply keyed_elements in Hkeyed as [Hkeyed _].
  assert ((sort_desc keyed).*2 ≡ₚ set_iter (posting_indexes self query)) as Hperm
    by by rewrite sort_desc_Permutation, Hkeyed.
  rewrite fmap_take. split_and!.
  - eapply sublist_NoDup; [|apply sublist_take]. rewrite Hperm. apply set_iter_NoDup.
  - rewrite length_take. lia.
  - intros i (j & Hi%list_elem_of_lookup_2 & _)%elem_of_take. rewrite Hperm in Hi.
    by apply set_iter_elem_of, elem_of_posting_indexes in Hi.
Qed.

Lemma top_indexes_Raise self (query : list string) (n : nat) (e : exn) :
  top_indexes self query n = Raise e →
  ∃ i, i ∈ candidate_set self query ∧ get_score self query i = Raise e.
Proof.
  unfold top_indexes, nlargest. destruct n as [|n]; [done|].
  destruct (comprehension _ _) as [keyed|e'] eqn:Hkeyed; [done|].
  cbn [mbind result_bind]. intros [= ->].
  apply comprehension_Raise in Hkeyed as (i & Hi & Hscore).
  exists i. split; [by apply elem_of_posting_indexes, set_iter_elem_of|].
  destruct (get_score self query i); cbn [mbind result_bind] in Hscore; congruence.
Qed.

Lemma get_top_n_Ok {D : Type} self (query : list string) (documents : list D)
    (n : nat) (returned : list D) :
  get_top_n self query documents n = Ok returned ↔
  corpus_size self = length documents ∧
  ∃ top, top_indexes self query n = Ok top ∧
         Forall2 (λ i d, documents !! i = Some d) top returned.
Proof.
  unfold get_top_n. case_decide as Hlen; [|naive_solver].
  rewrite bind_Ok. setoid_rewrite comprehension_Ok.
  split.
  - intros (top & Htop & Hdocs). split; [done|]. exists top. split; [done|].
    eapply Forall2_impl; [exact Hdocs|]. intros i d. by rewrite getitem_Ok.
  - intros (_ & top & Htop & Hdocs). exists top. split; [done|].
    eapply Forall2_impl; [exact Hdocs|]. intros i d. by rewrite getitem_Ok.
Qed.

Lemma set_iter_length self (query : list string) :
  length (set_iter (posting_indexes self query)) = size (candidate_set self query).
Proof.
  rewrite <-(size_list_to_set (C := gset nat)) by apply set_iter_NoDup.
  f_equal. apply set_eq. intros i.
  by rewrite elem_of_list_to_set, set_iter_elem_of, elem_of_posting_indexes.
Qed.

(** Without a posting for any token of the query there is no candidate. *)
Lemma top_indexes_no_posting self (query : list string) (n : nat) :
  (∀ token, token ∈ query → t2d self !! token = None) →
  top_indexes self query n = Ok [].
Proof.
  intros Hq.
  assert (posting_indexes self query = []) as Hnil.
  { unfold posting_indexes. induction query as [|token query IH]; [done|].
    cbn [flat_map]. rewrite (Hq token) by left. apply IH.
    intros; apply Hq; by right. }
  assert (set_iter (posting_indexes self query) = []) as Hset.
  { rewrite Hnil. destruct (set_iter []) as [|i l] eqn:Hl; [done|].
    assert (i ∈ set_iter []) as Hi by (rewrite Hl; left).
    by apply set_iter_elem_of, elem_of_nil in Hi. }
  unfold top_indexes, nlargest. rewrite Hset. by destruct n.
Qed.

(** X7 (lines 139-146). When no token of the query is a term of the index (the
    empty query included), [get_top_n] returns the empty list: no document is
    returned for a query that shares no indexed term with the corpus. *)
Theorem get_top_n_without_indexed_token {D : Type} self (query : list string)
    (documents : list D) (n : nat) :
  length documents = corpus_size self →
  (∀ token, token ∈ query → t2d self !! token = None) →
  get_top_n self query documents n = Ok [].
Proof.
  intros Hlen Hq. apply get_top_n_Ok. split; [done|]. exists [].
  split; [by apply top_indexes_no_posting|constructor].
Qed.

(** X8 (lines 140-146). On a constructed index whose candidates all get a
    score, [get_top_n] returns exactly [min(n, number of candidates)]
    documents. *)
Theorem get_top_n_returns_min {D : Type} corpus (k b0 a : F) self
    (query : list string) (documents : list D) (n : nat) :
  BM25_init corpus k b0 a = Ok self →
  length documents = corpus_size self →
  (∀ i, i ∈ candidate_set self query → ∃ s, get_score self query i = Ok s) →
  ∃ returned, get_top_n self query documents n = Ok returned ∧
              length returned = n `min` size (candidate_set self query).
Proof.
  intros Hinit%BM25_init_invariant Hlen Hscore.
  destruct (top_indexes_spec (λ _, True) self query n) as (keyed & Htop & Hperm & _).
  { intros i [s Hs]%Hscore. eauto. }
  destruct (comprehension_getitem documents (take n (sort_desc keyed)).*2)
    as (returned & Hret & Hdocs).
  { intros i Hi. rewrite Hlen. apply (candidate_in_range self query); [done|].
    by apply top_indexes_Ok in Htop as (_ & _ & Hcand); apply Hcand. }
  exists returned. split.
  - unfold get_top_n. rewrite decide_True by done. by rewrite Htop.
  - rewrite <-(Forall2_length _ _ _ Hdocs), length_fmap, length_take.
    by rewrite <-set_iter_length, <-Hperm, length_fmap.
Qed.

(** X9 (lines 140-146). Asking for fewer documents gives a prefix of the
    longer answer: the first [n] of what [get_top_n] returns for [m >= n].
    (The scores are taken to be comparable: with a NaN among its keys
    [heapq.nlargest] is no longer [sorted(...)[:n]].) *)
Theorem get_top_n_prefix {D : Type} self (query : list string) (documents : list D)
    (n m : nat) (returned : list D) :
  n ≤ m →
  (∀ i s, i ∈ candidate_set self query → get_score self query i = Ok s →
          comparable s) →
  get_top_n self query documents m = Ok returned →
  get_top_n self query documents n = Ok (take n returned).
Proof.
  intros Hnm _. unfold get_top_n. case_decide; [|done].
  intros (top & Htop & Hdocs)%bind_Ok.
  assert (top_indexes self query n = Ok (take n top)) as ->.
  { unfold top_indexes in *.
    apply nlargest_Ok in Htop as [[-> ->]|(keyed & Hkeyed & ->)].
    - by replace n with 0 by lia.
    - unfold nlargest. destruct n as [|n]; [done|]. rewrite Hkeyed.
      cbn [mbind result_bind]. by rewrite <-fmap_take, take_take, Nat.min_l. }
  cbn [mbind result_bind]. by apply comprehension_take.
Qed.

(** X10 (lines 139-146). On a constructed index [get_top_n] raises
    [AssertionError] for a [documents] list of the wrong length and otherwise
    fails only where a score divides by zero: the positions it reads from
    [documents] are positions of the corpus, and no key is missing. *)
Theorem get_top_n_failures {D : Type} corpus (k b0 a : F) self (query : list string)
    (documents : list D) (n : nat) (e : exn) :
  BM25_init corpus k b0 a = Ok self →
  get_top_n self query documents n = Raise e →
  (e = AssertionError ∧ length documents ≠ corpus_size self) ∨
  (e = ZeroDivisionError ∧ length documents = corpus_size self).
Proof.
  intros Hinv%BM25_init_invariant. unfold get_top_n.
  case_decide as Hlen; [intros He|intros [= <-]; left; by split].
  right. split; [|done].
  destruct (top_indexes self query n) as [top|e'] eqn:Htop;
    cbn [mbind result_bind] in He.
  - apply top_indexes_Ok in Htop as (_ & _ & Hcand).
    destruct (comprehension_getitem documents top) as (returned & Hret & _).
    { intros i Hi%Hcand. rewrite <-Hlen. by apply (candidate_in_range self query). }
    congruence.
  - injection He as ->. apply top_indexes_Raise in Htop as (i & Hi & Hscore).
    destruct Hinv as [Hdom Hrange].
    eapply get_score_in_range_Raise; [done| |done].
    by apply (candidate_in_range self query).
Qed.

(** X11 (lines 139-146, with the corpus itself as [documents]). Every document
    that [get_top_n] returns contains a token of the query that kept its IDF
    entry. *)
Theorem get_top_n_returns_matching_documents corpus (k b0 a : F) self
    (query : list string) (n : nat) (returned : list (list string)) :
  BM25_init corpus k b0 a = Ok self →
  get_top_n self query corpus n = Ok returned →
  ∀ document, document ∈ returned →
    ∃ token, token ∈ query ∧ token ∈ document ∧ is_Some (idf self !! token).
Proof.
  intros Hinit (_ & top & Htop & Hdocs)%get_top_n_Ok document Hd.
  apply top_indexes_Ok in Htop as (_ & _ & Hcand).
  apply list_elem_of_lookup in Hd as [j Hj].
  destruct (Forall2_lookup_r _ _ _ _ _ Hdocs Hj) as (i & Hi & Hdoc).
  apply list_elem_of_lookup_2, Hcand in Hi.
  apply elem_of_union_list in Hi as (X & (token & -> & Hq)%list_elem_of_fmap & Hi).
  exists token. split; [done|].
  pose proof (BM25_init_term _ _ _ _ _ token Hinit) as Ht. cbv zeta in Ht.
  destruct Ht as [(_ & _ & Hidf & docs & Hdocs' & _ & Hlook)|(_ & _ & Hnone)].
  - rewrite Hdocs' in Hi. cbn in Hi. apply elem_of_dom in Hi as [c Hc].
    rewrite Hlook in Hc. unfold posting_of in Hc. rewrite Hdoc in Hc.
    cbn [mbind option_bind] in Hc. case_decide; [|done]. by rewrite Hidf.
  - rewrite Hnone in Hi. cbn in Hi. by apply elem_of_dom in Hi as [? ?].
Qed.

End RankingFurther.

(** ** The empty corpus, and persistence *)

Section EdgesFurther.
Context {F : Type} `{PyFloat F} `{PySet}.

(** X12 (lines 46-55, 113, 139-146). [BM25([])] returns an index of size 0
    with empty tables; on it [get_score] raises [IndexError] for every query
    and position, and [get_top_n] with the empty list of documents returns the
    empty list. *)
Theorem empty_corpus_index (k b0 a : F) :
  ∃ self : BM25 F,
    BM25_init [] k b0 a = Ok self ∧
    corpus_size self = 0 ∧ t2d self = ∅ ∧ idf self = ∅ ∧
    (∀ (query : list string) (index : nat),
       get_score self query index = Raise IndexError) ∧
    (∀ (D : Type) (query : list string) (n : nat),
       get_top_n self query ([] : list D) n = Ok []).
Proof.
  eexists. split; [done|]. split_and!; [done..| |].
  - intros query index. apply get_score_out_of_range. cbn. lia.
  - intros D query n. apply get_top_n_Ok. split; [done|]. exists [].
    split; [|constructor]. apply top_indexes_no_posting.
    intros token _. apply lookup_empty.
Qed.

(** X13 (lines 139-171). The index that [load] rebuilds from what [save] wrote
    has the size of the saved one and ranks like it: [get_top_n] returns the
    same for every query, list of documents and [n]. *)
Theorem load_save_ranks_identically (x : BM25 F) (filename : string)
    (fs : gmap string (json_object F)) :
  ∃ y : BM25 F,
    load filename (save x filename fs) = Ok y ∧
    corpus_size y = corpus_size x ∧
    ∀ (D : Type) (query : list string) (documents : list D) (n : nat),
      get_top_n y query documents n = get_top_n x query documents n.
Proof. eexists. split; [apply load_save|]. done. Qed.

(** X14 (lines 148-171). Saving the reloaded index under the same name writes
    the file that was read: [save] after [load] after [save] changes nothing. *)
Theorem save_load_save (x : BM25 F) (filename : string)
    (fs : gmap string (json_object F)) :
  ∃ y : BM25 F,
    load filename (save x filename fs) = Ok y ∧
    save y filename (save x filename fs) = save x filename fs.
Proof.
  eexists. split; [apply load_save|]. unfold save. cbn. by rewrite insert_insert_eq.
Qed.

End EdgesFurther.

(** ** Documents as bags of words *)

Section BagsFurther.
Context {F : Type} `{PyFloat F}.
Implicit Types (corpus : list (list string)) (self : BM25 F).

Lemma for_each_ext {A S : Type} (body body' : S → A → result S) (acc : S)
    (l : list A) :
  (∀ s x, x ∈ l → body s x = body' s x) →
  for_each body acc l = for_each body' acc l.
Proof.
  revert acc. induction l as [|x l IH]; intros acc Hbody; [done|].
  rewrite !for_each_cons, Hbody by left.
  destruct (body' acc x) as [acc'|e]; [|done]. cbn [mbind result_bind].
  apply IH. intros; apply Hbody; by right.
Qed.

Lemma document_frequency_Permutation corpus corpus' (term : string) :
  Forall2 (≡ₚ) corpus corpus' →
  document_frequency corpus term = document_frequency corpus' term.
Proof.
  unfold document_frequency.
  induction 1 as [|d d' corpus corpus' Hd _ IH]; [done|]. rewrite !filter_cons.
  destruct (decide (term ∈ d)) as [Hin|Hin].
  - rewrite decide_True by by rewrite <-Hd. cbn [length]. by rewrite IH.
  - by rewrite decide_False by by rewrite <-Hd.
Qed.

Lemma posting_of_Permutation corpus corpus' (term : string) (i : nat) :
  Forall2 (≡ₚ) corpus corpus' →
  posting_of corpus term i = posting_of corpus' term i.
Proof.
  intros Hperm. unfold posting_of.
  destruct (corpus !! i) as [d|] eqn:Hd.
  - destruct (Forall2_lookup_l _ _ _ _ _ Hperm Hd) as (d' & -> & Hdd).
    cbn [mbind option_bind].
    destruct (decide (term ∈ d)) as [Hin|Hin].
    + rewrite decide_True by by rewrite <-Hdd.
      by rewrite (term_frequency_Permutation _ _ _ Hdd).
    + by rewrite decide_False by by rewrite <-Hdd.
  - destruct (corpus' !! i) as [d'|] eqn:Hd'; [|done].
    destruct (Forall2_lookup_r _ _ _ _ _ Hperm Hd') as (d & Hd'' & _). congruence.
Qed.

Lemma lengths_Permutation corpus corpus' :
  Forall2 (≡ₚ) corpus corpus' → length <$> corpus = length <$> corpus'.
Proof.
  induction 1 as [|d d' corpus corpus' Hd _ IH]; [done|].
  cbn [fmap list_fmap]. by rewrite Hd, IH.
Qed.

(** The two tables of a constructed index are functions of the document
    frequencies and the postings. *)
Lemma BM25_init_tables corpus corpus' (k b0 a : F) self self' :
  length corpus = length corpus' →
  (∀ term, document_frequency corpus term = document_frequency corpus' term) →
  (∀ term i, posting_of corpus term i = posting_of corpus' term i) →
  BM25_init corpus k b0 a = Ok self →
  BM25_init corpus' k b0 a = Ok self' →
  t2d self' = t2d self ∧ idf self' = idf self.
Proof.
  intros Hlen Hdf Hpost Hinit Hinit'.
  assert (∀ term, t2d self' !! term = t2d self !! term
                  ∧ idf self' !! term = idf self !! term) as Hterm.
  { intros term.
    pose proof (BM25_init_term _ _ _ _ _ term Hinit) as Ht.
    pose proof (BM25_init_term _ _ _ _ _ term Hinit') as Ht'.
    cbv zeta in Ht, Ht'. rewrite <-Hdf, <-Hlen in Ht'.
    destruct Ht as [(Hpos & Hlt & Hidf & docs & Hdocs & _ & Hlook)
                   |(Hout & Hidf & Hdocs)],
             Ht' as [(Hpos' & Hlt' & Hidf' & docs' & Hdocs' & _ & Hlook')
                    |(Hout' & Hidf' & Hdocs')].
    - rewrite Hidf, Hidf', Hdocs, Hdocs'. split; [|done]. f_equal.
      apply map_eq. intros i. by rewrite Hlook, Hlook', Hpost.
    - destruct Hout' as [?|?]; [lia|congruence].
    - destruct Hout as [?|?]; [lia|congruence].
    - by rewrite Hidf, Hidf', Hdocs, Hdocs'. }
  split; apply map_eq; intros term; by destruct (Hterm term).
Qed.

(** X15 (lines 61-94, 111-119). The index depends on a document only through
    its bag of words: from a corpus whose documents have their words in
    another order, construction gives the same tables, lengths and [avgdl],
    and [get_score] returns the same for every query and position. *)
Theorem documents_are_bags_of_words corpus corpus' (k b0 a : F) self :
  Forall2 (≡ₚ) corpus corpus' →
  BM25_init corpus k b0 a = Ok self →
  ∃ self',
    BM25_init corpus' k b0 a = Ok self' ∧
    t2d self' = t2d self ∧ idf self' = idf self ∧
    doc_len self' = doc_len self ∧ avgdl self' = avgdl self ∧
    ∀ (query : list string) (index : nat),
      get_score self' query index = get_score self query index.
Proof.
  intros Hperm Hinit.
  pose proof (Forall2_length _ _ _ Hperm) as Hlen.
  pose proof (lengths_Permutation _ _ Hperm) as Hlens.
  destruct (decide (corpus = [])) as [->|Hne].
  { apply Forall2_nil_inv_l in Hperm as ->. exists self. by repeat split. }
  assert (corpus' ≠ []) as Hne' by (intros ->; destruct corpus; done).
  destruct (BM25_init_some_term _ _ _ _ _ Hne Hinit) as (term & Hterm & Hsome).
  assert (∃ self', BM25_init corpus' k b0 a = Ok self') as [self' Hinit'].
  { apply (BM25_init_retained corpus' k b0 a term);
      rewrite <-(document_frequency_Permutation _ _ _ Hperm), <-?Hlen; [done|].
    pose proof (BM25_init_term _ _ _ _ _ term Hinit) as Hc. cbv zeta in Hc.
    destruct Hc as [(_ & ? & _)|(_ & Hnone & _)]; [done|].
    rewrite Hnone in Hsome. by destruct Hsome. }
  exists self'.
  destruct (BM25_init_tables corpus corpus' k b0 a self self') as [Ht2d Hidf];
    [done|intros; by apply document_frequency_Permutation
    |intros; by apply posting_of_Permutation|done..|].
  destruct (BM25_init_params _ _ _ _ _ Hinit) as (Hk & Hb & _ & Hdl).
  destruct (BM25_init_params _ _ _ _ _ Hinit') as (Hk' & Hb' & _ & Hdl').
  assert (doc_len self' = doc_len self) as Hdoc by by rewrite Hdl, Hdl', Hlens.
  assert (avgdl self' = avgdl self) as Havg.
  { rewrite (BM25_init_avgdl _ _ _ _ _ Hne Hinit), (BM25_init_avgdl _ _ _ _ _ Hne' Hinit').
    by rewrite Hlens, Hlen. }
  split_and!; [done..|]. intros query index. unfold get_score.
  by rewrite Hk, Hk', Hb, Hb', Ht2d, Hidf, Hdoc, Havg.
Qed.

(** X16 (lines 111-119). Two documents of the corpus with the same bag of
    words get the same score for every query. *)
Theorem equal_documents_score_equally corpus (k b0 a : F) self
    (query : list string) (i j : nat) (document document' : list string) :
  BM25_init corpus k b0 a = Ok self →
  corpus !! i = Some document → corpus !! j = Some document' →
  document ≡ₚ document' →
  get_score self query i = get_score self query j.
Proof.
  intros Hinit Hi Hj Hperm.
  destruct (BM25_init_params _ _ _ _ _ Hinit) as (_ & _ & _ & Hdl).
  assert (∀ term, posting_of corpus term i = posting_of corpus term j) as Hpost.
  { intros term. unfold posting_of. rewrite Hi, Hj. cbn [mbind option_bind].
    destruct (decide (term ∈ document)) as [Hin|Hin].
    - rewrite decide_True by by rewrite <-Hperm.
      by rewrite (term_frequency_Permutation _ _ _ Hperm).
    - by rewrite decide_False by by rewrite <-Hperm. }
  unfold get_score, getitem.
  rewrite Hdl, !list_lookup_fmap, Hi, Hj. cbn [fmap option_fmap option_map].
  rewrite Hperm. cbn [mbind result_bind].
  destruct (truediv _ (avgdl self)) as [ratio|e]; [|done]. cbn [mbind result_bind].
  apply for_each_ext. intros score token _.
  pose proof (BM25_init_term _ _ _ _ _ token Hinit) as Ht. cbv zeta in Ht.
  destruct Ht as [(_ & _ & _ & docs & -> & _ & Hlook)|(_ & _ & ->)]; [|done].
  by rewrite !Hlook, Hpost.
Qed.

End BagsFurther.

(** ** The default cutoff, in binary64 *)

(** Every IDF that a corpus of at most 30 documents can give. *)
Lemma default_cutoff_table :
  forallb (λ n, forallb (λ df, negb (fltb (float_of_int IDF_CUTOFF) (idf_weight n df)))
                        (seq 1 n))
          (seq 1 30) = true.
Proof. vm_compute. reflexivity. Qed.

(** X17 (lines 7, 76-86), in binary64. With the default [alpha = IDF_CUTOFF]
    no corpus of fewer than 31 documents can be indexed: every term is pruned
    and line 86 raises [ZeroDivisionError], whatever [k1] and [b].  With 31
    documents, a term that occurs in one of them is enough for an index. *)
Theorem default_cutoff_needs_31_documents (corpus : list (list string)) (k b0 : float) :
  (corpus ≠ [] → length corpus ≤ 30 →
   BM25_init corpus k b0 (float_of_int IDF_CUTOFF) = Raise ZeroDivisionError) ∧
  (length corpus = 31 → (∃ term, document_frequency corpus term = 1) →
   ∃ self, BM25_init corpus k b0 (float_of_int IDF_CUTOFF) = Ok self).
Proof.
  split.
  - intros Hne Hlen. apply BM25_init_all_pruned; [done|]. intros term Hdf.
    pose proof (document_frequency_le corpus term) as Hle.
    pose proof default_cutoff_table as Htable.
    rewrite forallb_forall in Htable.
    specialize (Htable (length corpus)). rewrite forallb_forall in Htable.
    apply negb_true_iff, Htable; apply in_seq; lia.
  - intros Hlen [term Hdf].
    apply (BM25_init_retained corpus k b0 _ term); rewrite Hdf, ?Hlen; [lia|].
    vm_compute. reflexivity.
Qed.

(** ** Retained occurrences *)

Section OccurrencesFurther.
Context {F : Type} `{PyFloat F}.


End OccurrencesFurther.

(** ** Exact arithmetic *)

Section ExactFurther.
Implicit Types (corpus : list (list string)) (self : BM25 R).
Open Scope R_scope.













(** ** Which terms are retained, in exact arithmetic *)






End ExactFurther.

(** ** Rarity, in exact arithmetic *)

Section RarityFurther.
Implicit Types (corpus : list (list string)) (self : BM25 R).
Open Scope R_scope.





End RarityFurther.

(** ** The cutoff *)

Section CutoffFurther.
Context {F : Type} `{PyFloat F} `{!PyFloatOrder F}.
Implicit Types (corpus : list (list string)) (self : BM25 F).

(** X25 (lines 74-84). Lowering the cutoff never loses a term: when
    construction succeeds with [alpha'] it succeeds with every comparable
    [alpha <= alpha'], and the index of [alpha] holds every IDF entry and
    every table of postings of the index of [alpha']. *)
Theorem lower_cutoff_keeps_more_terms corpus (k b0 a a' : F) self' :
  comparable a → fltb a' a = false →
  BM25_init corpus k b0 a' = Ok self' →
  ∃ self, BM25_init corpus k b0 a = Ok self ∧
          idf self' ⊆ idf self ∧ t2d self' ⊆ t2d self.
Proof.
  intros Hc Hle Hinit'.
  assert (∀ term,
            fltb a' (idf_weight (length corpus) (document_frequency corpus term)) = true →
            fltb a (idf_weight (length corpus) (document_frequency corpus term)) = true)
    as Hkeep.
  { intros term Hlt'. destruct (fltb a _) eqn:Hlt; [done|].
    by rewrite (fltb_ge_trans a' a _ Hc Hle Hlt) in Hlt'. }
  assert (∃ self, BM25_init corpus k b0 a = Ok self) as [self Hinit].
  { destruct (decide (corpus = [])) as [->|Hne]; [by eexists|].
    destruct (BM25_init_some_term _ _ _ _ _ Hne Hinit') as (term & Hdf & Hsome).
    apply (BM25_init_retained corpus k b0 a term); [done|]. apply Hkeep.
    pose proof (BM25_init_term _ _ _ _ _ term Hinit') as Ht. cbv zeta in Ht.
    destruct Ht as [(_ & ? & _)|(_ & Hnone & _)]; [done|].
    rewrite Hnone in Hsome. by destruct Hsome. }
  exists self. split; [done|].
  assert (∀ term, (∀ w, idf self' !! term = Some w → idf self !! term = Some w) ∧
                  (∀ docs, t2d self' !! term = Some docs → t2d self !! term = Some docs))
    as Hterm.
  { intros term.
    pose proof (BM25_init_term _ _ _ _ _ term Hinit) as Ht.
    pose proof (BM25_init_term _ _ _ _ _ term Hinit') as Ht'. cbv zeta in Ht, Ht'.
    destruct Ht' as [(Hdf & Hlt' & Hidf' & docs' & Hdocs' & _ & Hlook')
                    |(_ & Hidf' & Hdocs')]; [|split; intros; congruence].
    destruct Ht as [(_ & _ & Hidf & docs & Hdocs & _ & Hlook)|([Hz|Hge] & _)];
      [|lia|by rewrite Hkeep in Hge].
    split; [intros; congruence|]. intros docs'' Heq. rewrite Hdocs. f_equal.
    apply map_eq. intros i. rewrite Hlook. congruence. }
  split; apply map_subseteq_spec; intros term x; by apply Hterm.
Qed.

End CutoffFurther.

(** ** The two parameters, in exact arithmetic *)

Section ParametersFurther.
Implicit Types (corpus : list (list string)) (self : BM25 R).
Open Scope R_scope.



End ParametersFurther.

(** ** The further properties, on examples *)



(** The scores of the example index for the query [["cat"; "the"]]. *)
Lemma example_scores_cat (i : nat) :
  i ∈ candidate_set example_index ["cat"; "the"] →
  ∃ s, get_score example_index ["cat"; "the"] i = Ok s.
Proof. intros [s [Hs _]]%example_scores. eauto. Qed.

Lemma example_scores_comparable (i : nat) (s : float) :
  i ∈ candidate_set example_index ["cat"; "the"] →
  get_score example_index ["cat"; "the"] i = Ok s → not_nan s.
Proof. intros [s' [Hs' Hnan]]%example_scores Hs. congruence. Qed.

(** X1 on the example corpus with [alpha = -10]. *)
Lemma construction_needs_a_retained_term_witness :
  (∃ self, BM25_init example_corpus 1.5%float 0.75%float (-10)%float = Ok self) ↔
  ∃ term, 0 < document_frequency example_corpus term ∧
          fltb (-10)%float (idf_weight (length example_corpus)
                              (document_frequency example_corpus term)) = true.
Proof.
  apply (construction_needs_a_retained_term example_corpus 1.5%float 0.75%float
           (-10)%float). done.
Defined.

(** X2 on the example index. *)
Lemma construction_records_the_corpus_witness :
  k1 example_index = 1.5%float ∧ b example_index = 0.75%float ∧
  corpus_size example_index = 3 ∧ doc_len example_index !! 2 = Some 3.
Proof.
  destruct (construction_records_the_corpus example_corpus 1.5%float 0.75%float
              (-10)%float example_index example_index_built)
    as (Hk & Hb & _ & Hsize & Hlen & _).
  split_and!; [exact Hk|exact Hb|exact Hsize|exact (Hlen 2)].
Defined.

(** X3 on the example index: ["cat"] occurs twice in document 2. *)
Lemma postings_count_occurrences_witness :
  ∃ docs document,
    t2d example_index !! "cat" = Some docs ∧ docs !! 2 = Some 2 ∧
    example_corpus !! 2 = Some document ∧ "cat" ∈ document ∧
    2 = term_frequency "cat" document.
Proof.
  assert (t2d example_index !! "cat" = Some {[0 := 1; 2 := 2]}) as Hcat
    by (vm_compute; reflexivity).
  destruct (postings_count_occurrences example_corpus 1.5%float 0.75%float
              (-10)%float example_index "cat" _ example_index_built Hcat)
    as [_ Hpost].
  destruct (Hpost 2 2) as (document & Hd & Hin & Htf & _); [vm_compute; reflexivity|].
  exists {[0 := 1; 2 := 2]}, document. split_and!; [exact Hcat|vm_compute; reflexivity|done..].
Defined.


(** X5 on the example index, at position 3 (past the end) and at position 2. *)
Lemma get_score_failures_witness :
  get_score example_index ["cat"] 3 = Raise IndexError ∧
  ∀ e, get_score example_index ["cat"] 2 = Raise e → e = ZeroDivisionError.
Proof.
  split.
  - apply (get_score_failures example_corpus 1.5%float 0.75%float (-10)%float
             example_index ["cat"] 3 example_index_built). vm_compute. lia.
  - apply (get_score_failures example_corpus 1.5%float 0.75%float (-10)%float
             example_index ["cat"] 2 example_index_built). vm_compute. lia.
Defined.

(** X7 on the example index, for a query of two unknown tokens. *)
Lemma get_top_n_without_indexed_token_witness :
  get_top_n example_index ["bird"; "fish"] ["d0"; "d1"; "d2"] 5 = Ok [].
Proof.
  apply (get_top_n_without_indexed_token example_index ["bird"; "fish"]
           ["d0"; "d1"; "d2"] 5).
  - vm_compute. reflexivity.
  - intros token [->|[->|[]%elem_of_nil]%elem_of_cons]%elem_of_cons;
      vm_compute; reflexivity.
Defined.

(** X8 on the example index: three candidates, two documents asked for. *)
Lemma get_top_n_returns_min_witness :
  ∃ returned : list string,
    get_top_n example_index ["cat"; "the"] ["d0"; "d1"; "d2"] 2 = Ok returned ∧
    length returned = 2 `min` size (candidate_set example_index ["cat"; "the"]).
Proof.
  apply (get_top_n_returns_min example_corpus 1.5%float 0.75%float (-10)%float
           example_index ["cat"; "the"] ["d0"; "d1"; "d2"] 2 example_index_built).
  - vm_compute. reflexivity.
  - exact example_scores_cat.
Defined.

(** X9 on the example index: the best document is the first of the best three. *)
Lemma get_top_n_prefix_witness :
  ∃ returned : list string,
    get_top_n example_index ["cat"; "the"] ["d0"; "d1"; "d2"] 3 = Ok returned ∧
    get_top_n example_index ["cat"; "the"] ["d0"; "d1"; "d2"] 1
    = Ok (take 1 returned).
Proof.
  eexists. split; [vm_compute; reflexivity|].
  apply (get_top_n_prefix example_index ["cat"; "the"] ["d0"; "d1"; "d2"] 1 3).
  - lia.
  - exact example_scores_comparable.
  - vm_compute. reflexivity.
Defined.

(** X10 on the example index: two documents for an index of three. *)
Lemma get_top_n_failures_witness :
  get_top_n example_index ["cat"] ["d0"; "d1"] 5 = Raise AssertionError ∧
  ((AssertionError = AssertionError ∧ length ["d0"; "d1"] ≠ corpus_size example_index) ∨
   (AssertionError = ZeroDivisionError
    ∧ length ["d0"; "d1"] = corpus_size example_index)).
Proof.
  assert (get_top_n example_index ["cat"] ["d0"; "d1"] 5 = Raise AssertionError)
    as Hraise by (vm_compute; reflexivity).
  split; [exact Hraise|].
  exact (get_top_n_failures example_corpus 1.5%float 0.75%float (-10)%float
           example_index ["cat"] ["d0"; "d1"] 5 AssertionError example_index_built
           Hraise).
Defined.

(** X11 on the example index and its corpus. *)
Lemma get_top_n_returns_matching_documents_witness :
  ∃ returned : list (list string),
    get_top_n example_index ["cat"; "bird"] example_corpus 5 = Ok returned ∧
    ∀ document, document ∈ returned →
      ∃ token, token ∈ ["cat"; "bird"] ∧ token ∈ document
               ∧ is_Some (idf example_index !! token).
Proof.
  eexists. split; [vm_compute; reflexivity|].
  apply (get_top_n_returns_matching_documents example_corpus 1.5%float 0.75%float
           (-10)%float example_index ["cat"; "bird"] 5 _ example_index_built).
  vm_compute. reflexivity.
Defined.

(** X17 on the example corpus, which has fewer than 31 documents. *)
Lemma default_cutoff_needs_31_documents_witness :
  BM25_init example_corpus 1.5%float 0.75%float (float_of_int IDF_CUTOFF)
  = Raise ZeroDivisionError.
Proof.
  apply (default_cutoff_needs_31_documents example_corpus 1.5%float 0.75%float).
  - done.
  - vm_compute. lia.
Defined.

(** X15: the words of two documents of the example corpus, in another order. *)
Lemma documents_are_bags_of_words_witness :
  ∃ self' : BM25 float,
    BM25_init [["sat"; "the"; "cat"]; ["the"; "dog"; "ran"]; ["cat"; "ran"; "cat"]]
      1.5%float 0.75%float (-10)%float = Ok self' ∧
    ∀ (query : list string) (index : nat),
      get_score self' query index = get_score example_index query index.
Proof.
  destruct (documents_are_bags_of_words example_corpus
              [["sat"; "the"; "cat"]; ["the"; "dog"; "ran"]; ["cat"; "ran"; "cat"]]
              1.5%float 0.75%float (-10)%float example_index)
    as (self' & Hinit & _ & _ & _ & _ & Hscore).
  - constructor; [|constructor; [done|constructor; [|constructor]]].
    + symmetry. apply (Permutation_cons_append ["the"; "cat"] "sat").
    + apply perm_skip, perm_swap.
  - exact example_index_built.
  - exists self'. split; [exact Hinit|exact Hscore].
Defined.

(** X16 on a corpus whose first two documents hold the same words. *)
Lemma equal_documents_score_equally_witness :
  ∃ self : BM25 float,
    BM25_init twin_corpus 1.5%float 0.75%float 0%float = Ok self ∧
    get_score self ["a"; "c"] 0 = get_score self ["a"; "c"] 1.
Proof.
  exists (built (BM25_init twin_corpus 1.5%float 0.75%float 0%float)).
  assert (BM25_init twin_corpus 1.5%float 0.75%float 0%float
          = Ok (built (BM25_init twin_corpus 1.5%float 0.75%float 0%float)))
    as Hinit by (vm_compute; reflexivity).
  split; [exact Hinit|].
  apply (equal_documents_score_equally twin_corpus 1.5%float 0.75%float 0%float _
           ["a"; "c"] 0 1 ["a"; "b"] ["b"; "a"] Hinit); [done|done|].
  apply perm_swap.
Defined.

Section ExactWitnesses.
Open Scope R_scope.








End ExactWitnesses.

(** X25 on the example corpus, from [alpha = 0] down to [alpha = -10]. *)
Lemma lower_cutoff_keeps_more_terms_witness :
  ∃ self self' : BM25 float,
    BM25_init example_corpus 1.5%float 0.75%float 0%float = Ok self' ∧
    BM25_init example_corpus 1.5%float 0.75%float (-10)%float = Ok self ∧
    idf self' ⊆ idf self ∧ t2d self' ⊆ t2d self.
Proof.
  assert (BM25_init example_corpus 1.5%float 0.75%float 0%float
          = Ok (built (BM25_init example_corpus 1.5%float 0.75%float 0%float)))
    as Hinit' by (vm_compute; reflexivity).
  destruct (lower_cutoff_keeps_more_terms example_corpus 1.5%float 0.75%float
              (-10)%float 0%float
              (built (BM25_init example_corpus 1.5%float 0.75%float 0%float)))
    as (self & Hinit & Hidf & Ht2d);
    [vm_compute; reflexivity|vm_compute; reflexivity|exact Hinit'|].
  eexists self, _. split_and!; [exact Hinit'|exact Hinit|exact Hidf|exact Ht2d].
Defined.

Section ParameterWitnesses.
Open Scope R_scope.



End ParameterWitnesses.
